(** * lmdb-table: the message queue built on the transactional table facade

    A shallow embedding of [transaction.ts], [table.ts], the transactions
    of [database.ts], and [queue.ts].  JavaScript objects that are mutated in place (the
    [Transaction] wrapper, the LMDB environment) are threaded explicitly
    through a state-and-exception monad; [throw new Error (msg)] is
    [Throw msg], carrying the message text of the source. *)

From Stdlib Require Import ZArith Ascii String.
From stdpp Require Import gmap strings list fin_maps.

Local Open Scope string_scope.
Local Open Scope Z_scope.

#[local] Set Warnings "-clear-no-such-hyp".

(** ** Exceptions and state *)

Inductive Result (A : Type) : Type :=
| Ok (value : A)
| Throw (error : string).
Arguments Ok {A} value.
Arguments Throw {A} error.

(** A computation over a mutable state [S] that returns or throws; the
    state reached at a [Throw] is kept, as it is in JavaScript. *)
Definition M (S A : Type) : Type := S → Result A * S.

Definition ret {S A} (a : A) : M S A := λ s, (Ok a, s).
Definition throw {S A} (e : string) : M S A := λ s, (Throw e, s).
Definition bind {S A B} (m : M S A) (k : A → M S B) : M S B :=
  λ s, match m s with
       | (Ok a, s') => k a s'
       | (Throw e, s') => (Throw e, s')
       end.
Definition get {S} : M S S := λ s, (Ok s, s).
Definition result {S A} (r : Result A) : M S A := λ s, (r, s).
Definition modify {S} (f : S → S) : M S unit := λ s, (Ok tt, f s).

Declare Scope js_scope.
Delimit Scope js_scope with js.
Notation "x <- m ;; k" := (bind m (λ x, k))
  (at level 100, m at next level, right associativity) : js_scope.
Notation "m ;;; k" := (bind m (λ _, k))
  (at level 100, right associativity) : js_scope.
Local Open Scope js_scope.

(** ** Data model (queue.ts) *)

Record Message := mkMessage {
  id : Z;
  enqueued : Z;      (* timestamp *)
  received : Z;      (* timestamp *)
  numReceives : Z;
  body : string;
  dedupKey : option string;
}.

#[global] Instance Message_eq_dec : EqDecision Message.
Proof. solve_decision. Defined.

(** JavaScript truthiness of an optional string, and [a || b]. *)
Definition truthy (s : option string) : bool :=
  match s with
  | Some s => negb (String.eqb s EmptyString)
  | None => false
  end.

Definition or_else (a : option string) (b : string) : string :=
  match a with
  | Some s => if truthy a then s else b
  | None => b
  end.

(** ** The LMDB environment

    The physical store holds the two named tables a queue opens.  Records
    are kept as [Message] values: [JSON.parse (JSON.stringify m)] is [m]
    for the six fields of a message, so the text form is not modelled.
    The dedup table maps a key to the number [putNumber] stored. *)

Record Tables := mkTables {
  queue_data : gmap Z Message;
  index_data : gmap string Z;
}.

(** A table handle ([Dbi]): which keyspace of the environment it names. *)
Record Table (K V : Type) `{Countable K} := mkTable {
  dbi_read : Tables → gmap K V;
  dbi_write : gmap K V → Tables → Tables;
}.
Arguments dbi_read {K V _ _} _ _.
Arguments dbi_write {K V _ _} _ _ _.

Definition queue_table : Table Z Message :=
  {| dbi_read := queue_data;
     dbi_write := λ m t, mkTables m t.(index_data) |}.

Definition index_table : Table string Z :=
  {| dbi_read := index_data;
     dbi_write := λ m t, mkTables t.(queue_data) m |}.

(** The four value types of the typed accessors ([getString] and
    [putString], [getBinary] and [putBinary], [getNumber] and [putNumber],
    [getBoolean] and [putBoolean]). *)
Inductive ValueType := StringValue | BinaryValue | NumberValue | BooleanValue.

#[global] Instance ValueType_eq_dec : EqDecision ValueType.
Proof. solve_decision. Defined.

(** What a table holds: [stored_as v] is the value type [v] is written
    with, and [value_truthy v] the JavaScript truthiness of [v].  A record
    of the message table is a JSON text, a string that is never empty; an
    entry of the dedup table is the number [putNumber] stored. *)
Class Value (V : Type) := {
  stored_as : V → ValueType;
  value_truthy : V → bool;
}.
#[global] Instance message_value : Value Message :=
  {| stored_as := λ _, StringValue; value_truthy := λ _, true |}.
#[global] Instance number_value : Value Z :=
  {| stored_as := λ _, NumberValue; value_truthy := λ n, negb (n =? 0) |}.

(** The run-time shape of a key, as [assertKeySize] tests it with
    [instanceof Buffer] and [typeof key === 'string']. *)
Inductive KeyShape :=
| BufferKey (length : Z)
| StringKey (length : Z)
| OtherKey.

Class Key (K : Type) := key_shape : K → KeyShape.
#[global] Instance number_key : Key Z := λ _, OtherKey.
#[global] Instance string_key : Key string :=
  λ s, StringKey (Z.of_nat (String.length s)).
#[global] Instance buffer_key : Key (list Byte.byte) :=
  λ b, BufferKey (Z.of_nat (List.length b)).

(** *** node-lmdb [Txn] and [Cursor] *)

(** Modelled from the spec: the transactional key-value store (node-lmdb)
    is an external collaborator.  A transaction works on a private copy of
    the tables, which [commit] publishes and [abort] drops. *)
Record Txn := mkTxn {
  readOnly : bool;
  data : Tables;
}.

Definition beginTxn (env : Tables) (readOnly : bool) : Txn :=
  {| readOnly := readOnly; data := env |}.

Definition Txn_get {K V} `{Countable K} (t : Txn) (dbi : Table K V) (key : K)
  : option V :=
  dbi_read dbi t.(data) !! key.

(** Modelled from the spec: tables have typed values.  A typed read
    returns null for an absent key and the value for one written with the
    same type; a value written with another type is not read back: the
    read fails. *)
Definition TypeMismatch : string := "The value was written with another type.".

Definition Txn_read {K V} `{Countable K, !Value V} (t : Txn) (dbi : Table K V)
    (key : K) (as_type : ValueType) : Result (option V) :=
  match Txn_get t dbi key with
  | None => Ok None
  | Some value =>
      if decide (stored_as value = as_type) then Ok (Some value)
      else Throw TypeMismatch
  end.

Definition Txn_put {K V} `{Countable K} (t : Txn) (dbi : Table K V) (key : K)
    (value : V) : Txn :=
  mkTxn t.(readOnly) (dbi_write dbi (<[key := value]> (dbi_read dbi t.(data))) t.(data)).

Definition Txn_del {K V} `{Countable K} (t : Txn) (dbi : Table K V) (key : K)
  : Txn :=
  mkTxn t.(readOnly) (dbi_write dbi (delete key (dbi_read dbi t.(data))) t.(data)).

(** Publishing a transaction: a read-only one leaves the environment as it
    is. *)
Definition Txn_commit (t : Txn) (env : Tables) : Tables :=
  if t.(readOnly) then env else t.(data).

Definition least (l : list Z) : option Z :=
  foldr (λ k acc, Some (from_option (Z.min k) k acc)) None l.

Definition greatest (l : list Z) : option Z :=
  foldr (λ k acc, Some (from_option (Z.max k) k acc)) None l.

(** Modelled from the spec: an ordered cursor over a keyspace, with signed
    integer keys in ascending order: seek to the last key, seek to the
    first key at or above a target, step to the next key, read the record
    at the position.  Each seek returns the key found, or nothing. *)
Module Cursor.
Definition goToLast {V} (s : gmap Z V) : option Z :=
  greatest (elements (dom s)).

Definition goToRange {V} (s : gmap Z V) (target : Z) : option Z :=
  least (filter (λ k, target ≤ k) (elements (dom s))).

(** The position is passed in: the source keeps it in [key]. *)
Definition goToNext {V} (s : gmap Z V) (pos : Z) : option Z :=
  goToRange s (pos + 1).

Definition getCurrentString {V} (s : gmap Z V) (pos : Z) : option V :=
  s !! pos.

(** Seek to exactly [key]: the key when it is there, nothing otherwise. *)
Definition goToKey {K V} `{Countable K} (s : gmap K V) (key : K) : option K :=
  match s !! key with
  | Some _ => Some key
  | None => None
  end.
End Cursor.

(** JavaScript [!key] and [key || 0] on what a cursor seek returns. *)
Definition falsy_key (key : option Z) : bool :=
  match key with
  | None => true
  | Some k => k =? 0
  end.

Definition key_or_zero (key : option Z) : Z :=
  match key with
  | Some k => k
  | None => 0
  end.

(** ** transaction.ts *)

Definition MAX_KEY_SIZE : Z := 511.

Definition assertKeySize {S K} `{Key K} (key : K) : M S unit :=
  match key_shape key with
  | BufferKey length =>
      if length >? MAX_KEY_SIZE
      then throw "Key<Buffer> size exceeds maximum length of 511"
      else ret tt
  | StringKey length =>
      if length * 2 >? MAX_KEY_SIZE
      then throw "Key<string> size exceeds maximum length of 255"
      else ret tt
  | OtherKey => ret tt
  end.

Record Transaction := mkTransaction {
  txn : Txn;
  isWriteable : bool;
  isClosed : bool;
  isReset : bool;
}.

Module Transaction.
(** [new Transaction (lmdbEnv, options)]; [options] is the optional
    [writeable] flag. *)
Definition new (env : Tables) (options : option bool) : Transaction :=
  {| txn := beginTxn env (negb (default false options));
     isClosed := false;
     isReset := false;
     isWriteable := default false options |}.

Definition with_txn (f : Txn → Txn) : M Transaction unit :=
  modify (λ this, mkTransaction (f this.(txn)) this.(isWriteable)
                    this.(isClosed) this.(isReset)).

Definition assertRead {K} `{Key K} (key : K) : M Transaction unit :=
  assertKeySize key ;;;
  this <- get ;;
  if this.(isReset) || this.(isClosed)
  then throw "The transaction is already closed."
  else ret tt.

Definition assertWrite {K} `{Key K} (key : K) : M Transaction unit :=
  assertRead key ;;;
  this <- get ;;
  if negb this.(isWriteable)
  then throw "The transaction is read-only."
  else ret tt.

(** The typed accessors.  A read goes through the accessor's value type; a
    write stores the value it is given, which TypeScript admits only at the
    accessor's type. *)
Definition getString {K V} `{Countable K, !Key K, !Value V}
    (table : Table K V) (key : K) : M Transaction (option V) :=
  assertRead key ;;;
  this <- get ;;
  result (Txn_read this.(txn) table key StringValue).

Definition putString {K V} `{Countable K, !Key K} (table : Table K V)
    (key : K) (value : V) : M Transaction unit :=
  assertWrite key ;;;
  with_txn (λ t, Txn_put t table key value).

Definition getNumber {K V} `{Countable K, !Key K, !Value V}
    (table : Table K V) (key : K) : M Transaction (option V) :=
  assertRead key ;;;
  this <- get ;;
  result (Txn_read this.(txn) table key NumberValue).

Definition putNumber {K V} `{Countable K, !Key K} (table : Table K V)
    (key : K) (value : V) : M Transaction unit :=
  assertWrite key ;;;
  with_txn (λ t, Txn_put t table key value).

Definition getBinary {K V} `{Countable K, !Key K, !Value V}
    (table : Table K V) (key : K) : M Transaction (option V) :=
  assertRead key ;;;
  this <- get ;;
  result (Txn_read this.(txn) table key BinaryValue).

Definition putBinary {K V} `{Countable K, !Key K} (table : Table K V)
    (key : K) (value : V) : M Transaction unit :=
  assertWrite key ;;;
  with_txn (λ t, Txn_put t table key value).

Definition getBoolean {K V} `{Countable K, !Key K, !Value V}
    (table : Table K V) (key : K) : M Transaction (option V) :=
  assertRead key ;;;
  this <- get ;;
  result (Txn_read this.(txn) table key BooleanValue).

Definition putBoolean {K V} `{Countable K, !Key K} (table : Table K V)
    (key : K) (value : V) : M Transaction unit :=
  assertWrite key ;;;
  with_txn (λ t, Txn_put t table key value).

Definition del {K V} `{Countable K, !Key K} (table : Table K V)
    (key : K) : M Transaction unit :=
  assertWrite key ;;;
  with_txn (λ t, Txn_del t table key).

Definition getStringUnsafe {K V} `{Countable K, !Key K, !Value V}
    (table : Table K V) (key : K) : M Transaction (option V) :=
  assertRead key ;;;
  this <- get ;;
  result (Txn_read this.(txn) table key StringValue).

Definition getBinaryUnsafe {K V} `{Countable K, !Key K, !Value V}
    (table : Table K V) (key : K) : M Transaction (option V) :=
  assertRead key ;;;
  this <- get ;;
  result (Txn_read this.(txn) table key BinaryValue).

Definition close (this : Transaction) : Transaction :=
  mkTransaction this.(txn) this.(isWriteable) true this.(isReset).

(** [commit] and [abort] also act on the environment. *)
Definition commit (this : Transaction) (env : Tables)
  : Transaction * Tables :=
  (close this, Txn_commit this.(txn) env).

Definition abort (this : Transaction) (env : Tables)
  : Transaction * Tables :=
  (close this, env).

Definition reset (this : Transaction) : Transaction :=
  mkTransaction this.(txn) this.(isWriteable) this.(isClosed) true.

(** [this.txn.renew (); this.isReset = false].  The store renews a
    read-only transaction that is not finished, on the environment as it is
    at that moment; on a write transaction and on a committed or aborted
    one the call throws, and [isReset] stays as it is. *)
Definition renew (env : Tables) : M Transaction unit :=
  this <- get ;;
  (if this.(txn).(readOnly) && negb this.(isClosed)
   then ret tt
   else throw "Invalid argument") ;;;
  modify (λ this, mkTransaction (beginTxn env true) this.(isWriteable)
                    this.(isClosed) false).
End Transaction.

(** ** database.ts and table.ts *)

(** What a queue operation runs in: the environment and the transaction
    the operation itself began ([const txn = this.db.beginWrite ()]). *)
Record State := mkState {
  env : Tables;
  own : Transaction;
}.

Module Database.
Definition beginRead (env : Tables) : Transaction :=
  Transaction.new env None.

Definition beginWrite (env : Tables) : Transaction :=
  Transaction.new env (Some true).
End Database.

(** The optional [txn?: Transaction] argument of the table methods: the
    caller's own transaction, or none. *)
Inductive TxnArg := Given | Omitted.

(** [txn.commit ()] and [txn.abort ()] on the operation's transaction. *)
Definition commit : M State unit :=
  λ st, let '(t, e) := Transaction.commit st.(own) st.(env) in
        (Ok tt, mkState e t).

Definition abort : M State unit :=
  λ st, let '(t, e) := Transaction.abort st.(own) st.(env) in
        (Ok tt, mkState e t).

(** JavaScript truthiness of a key, as [hasKey] tests what the cursor
    returns: the number 0 and the empty string are falsy. *)
Class TruthyKey (K : Type) := key_truthy : K → bool.
#[global] Instance number_truthy : TruthyKey Z := λ k, negb (k =? 0).
#[global] Instance string_truthy : TruthyKey string :=
  λ s, negb (String.eqb s EmptyString).

Module Table.
(** Runs [callback] in the supplied transaction, or in a temporary one
    that is committed (writeable) or aborted (read-only) afterwards and
    aborted when the callback throws.  The store has one writer at a time:
    what is stated of a temporary write transaction is stated for a caller
    that holds no open write transaction of its own. *)
Definition useTransaction {T} (callback : M Transaction T) (txn : TxnArg)
    (options : option bool) : M State T :=
  λ st,
    match txn with
    | Given =>
        let '(result, useTxn) := callback st.(own) in
        (result, mkState st.(env) useTxn)
    | Omitted =>
        let '(result, useTxn) := callback (Transaction.new st.(env) options) in
        match result with
        | Ok r =>
            if useTxn.(isClosed) then (Ok r, st)
            else if useTxn.(isWriteable)
                 then (Ok r, mkState (Transaction.commit useTxn st.(env)).2 st.(own))
                 else (Ok r, mkState (Transaction.abort useTxn st.(env)).2 st.(own))
        | Throw err =>
            if useTxn.(isClosed) then (Throw err, st)
            else (Throw err, mkState (Transaction.abort useTxn st.(env)).2 st.(own))
        end
    end.

Section methods.
Context {K V : Type} `{Countable K, !Key K, !Value V}.

Definition del (this : Table K V) (key : K) (txn : TxnArg) : M State unit :=
  useTransaction (Transaction.del this key) txn (Some true).

Definition getString (this : Table K V) (key : K) (txn : TxnArg)
  : M State (option V) :=
  useTransaction (Transaction.getString this key) txn None.

Definition putString (this : Table K V) (key : K) (value : V)
    (txn : TxnArg) : M State unit :=
  useTransaction (Transaction.putString this key value) txn (Some true).

Definition getNumber (this : Table K V) (key : K) (txn : TxnArg)
  : M State (option V) :=
  useTransaction (Transaction.getNumber this key) txn None.

Definition putNumber (this : Table K V) (key : K) (value : V)
    (txn : TxnArg) : M State unit :=
  useTransaction (Transaction.putNumber this key value) txn (Some true).

(** [this.cursor (txn)]: the keyspace as the transaction sees it. *)
Definition cursor (this : Table K V) (transaction : Transaction)
  : gmap K V :=
  dbi_read this transaction.(txn).(data).

Definition getStringUnsafe (this : Table K V) (key : K) (txn : TxnArg)
  : M State (option V) :=
  useTransaction (Transaction.getStringUnsafe this key) txn None.

Definition getBinary (this : Table K V) (key : K) (txn : TxnArg)
  : M State (option V) :=
  useTransaction (Transaction.getBinary this key) txn None.

Definition getBinaryUnsafe (this : Table K V) (key : K) (txn : TxnArg)
  : M State (option V) :=
  useTransaction (Transaction.getBinaryUnsafe this key) txn None.

Definition putBinary (this : Table K V) (key : K) (value : V)
    (txn : TxnArg) : M State unit :=
  useTransaction (Transaction.putBinary this key value) txn (Some true).

Definition getBoolean (this : Table K V) (key : K) (txn : TxnArg)
  : M State (option V) :=
  useTransaction (Transaction.getBoolean this key) txn None.

Definition putBoolean (this : Table K V) (key : K) (value : V)
    (txn : TxnArg) : M State unit :=
  useTransaction (Transaction.putBoolean this key value) txn (Some true).

(** [cur.goToKey (key) ? true : false], on a cursor opened straight on the
    transaction: no key-size or state check is made on this path. *)
Definition hasKey `{!TruthyKey K} (this : Table K V) (key : K)
    (txn : TxnArg) : M State bool :=
  useTransaction
    (λ useTxn,
       let cur := cursor this useTxn in
       let result :=
         match Cursor.goToKey cur key with
         | Some found => key_truthy found
         | None => false
         end in
       (Ok result, useTxn))
    txn None.
End methods.
End Table.

(** ** queue.ts *)

Definition DEFAULT_QUEUE_NAME : string := "queue".
Definition DEFAULT_VISIBILITY_TIMEOUT_SECS : Z := 360.
Definition DEFAULT_MAX_RECEIVES : Z := 3.
Definition DEFAULT_MAX_RETENTION_HOURS : Z := 72.

Module QueueOptions.
(** [None] is an absent property. *)
Record t := mk {
  name : string;
  dedup : option bool;
  requireAck : option bool;
  visibilityTimeoutSecs : option Z;
  maxReceives : option Z;
  maxRetentionHours : option Z;
}.
End QueueOptions.

Module QueueConfig.
Record t := mk {
  name : string;
  dedup : bool;
  requireAck : bool;
  visibilityTimeoutSecs : Z;
  maxReceives : Z;
  maxRetentionHours : Z;
}.
End QueueConfig.

Definition defaultConfig : QueueConfig.t :=
  {| QueueConfig.name := DEFAULT_QUEUE_NAME;
     QueueConfig.dedup := true;
     QueueConfig.requireAck := true;
     QueueConfig.visibilityTimeoutSecs := DEFAULT_VISIBILITY_TIMEOUT_SECS;
     QueueConfig.maxReceives := DEFAULT_MAX_RECEIVES;
     QueueConfig.maxRetentionHours := DEFAULT_MAX_RETENTION_HOURS |}.

(** [Object.assign ({}, defaultConfig, options)]: a property present in
    [options] overrides the default. *)
Definition assign (defaults : QueueConfig.t) (options : QueueOptions.t)
  : QueueConfig.t :=
  {| QueueConfig.name := options.(QueueOptions.name);
     QueueConfig.dedup :=
       default defaults.(QueueConfig.dedup) options.(QueueOptions.dedup);
     QueueConfig.requireAck :=
       default defaults.(QueueConfig.requireAck) options.(QueueOptions.requireAck);
     QueueConfig.visibilityTimeoutSecs :=
       default defaults.(QueueConfig.visibilityTimeoutSecs)
               options.(QueueOptions.visibilityTimeoutSecs);
     QueueConfig.maxReceives :=
       default defaults.(QueueConfig.maxReceives) options.(QueueOptions.maxReceives);
     QueueConfig.maxRetentionHours :=
       default defaults.(QueueConfig.maxRetentionHours)
               options.(QueueOptions.maxRetentionHours) |}.

Record Queue := mkQueue {
  config : QueueConfig.t;
  queue : Table Z Message;
  index : option (Table string Z);
}.

(** How the [while (!valid)] loop of [receive] is left. *)
Inductive LoopExit :=
| ReturnNull                    (* [return null] inside the loop *)
| Selected (key : Z) (message : Message).   (* the loop condition failed *)

(** Whether a lookup found an entry. *)
Definition present {A} (x : option A) : bool :=
  match x with Some _ => true | None => false end.

(** JavaScript truthiness of what a typed read returns: null is falsy, a
    value has the truthiness of its type. *)
Definition truthy_read {V} `{!Value V} (found : option V) : bool :=
  match found with
  | Some value => value_truthy value
  | None => false
  end.

Definition setId (message : Message) (newId : Z) : Message :=
  mkMessage newId message.(enqueued) message.(received) message.(numReceives)
            message.(body) message.(dedupKey).

(** [message.numReceives++; message.received = now] *)
Definition deliver (message : Message) (now : Z) : Message :=
  mkMessage message.(id) message.(enqueued) now (message.(numReceives) + 1)
            message.(body) message.(dedupKey).

Module Queue.
Definition new (options : QueueOptions.t) : Queue :=
  {| config := assign defaultConfig options;
     queue := queue_table;
     index := if default false options.(QueueOptions.dedup)
              then Some index_table else None |}.

(** return false if duplicate already exists in queue *)
Definition send (this : Queue) (body : string) (dedupKey : option string)
    (now : Z) (db : Tables) : Result bool * State :=
  let txn := Database.beginWrite db in
  ( (* Deduplicate *)
    duplicate <-
      match this.(index) with
      | Some index =>
          if truthy dedupKey
          then throw "This queue does not support deduplication"
          else
            let key := or_else dedupKey body in
            found <- Table.getString index key Omitted ;;
            ret (truthy_read found)
      | None => ret false
      end ;;
    if duplicate : bool then ret false else
    (* Find the last message in the queue *)
    st <- get ;;
    let cursor := Table.cursor this.(queue) st.(own) in
    let key := key_or_zero (Cursor.goToLast cursor) in
    (* increment id *)
    let id := key + 1 in
    (* Build Message *)
    let message :=
      {| id := id; enqueued := now; received := 0; numReceives := 0;
         body := body; dedupKey := dedupKey |} in
    (* Put message into queue *)
    Table.putString this.(queue) id message Given ;;;
    (* Put entry into dedup index *)
    match this.(index) with
    | Some index =>
        let key := or_else dedupKey body in
        Table.putNumber index key now Given
    | None => ret tt
    end ;;;
    (* Commit transaction *)
    commit ;;;
    ret true
  ) (mkState db txn).

(** The [while (!valid)] loop, one pass of its body per unit of [fuel];
    [key] is the cursor position and [message] the record read there.  The
    bound [receive] passes is never reached ([receive_loop_scans]). *)
Fixpoint receive_loop (this : Queue) (now : Z) (fuel : nat) (key : Z)
    (message : Message) : M State LoopExit :=
  match fuel with
  | O => throw "receive: loop bound exceeded"
  | S fuel =>
      valid <-
        (if message.(received) =? 0 then ret true
         else if now - message.(received) >?
                   this.(config).(QueueConfig.visibilityTimeoutSecs) * 1000
         then
           (* If dead, send to DLQ *)
           if message.(numReceives) >=? this.(config).(QueueConfig.maxReceives)
           then
             Table.del this.(queue) message.(id) Given ;;;
             let message := setId message (- message.(id)) in
             Table.putString this.(queue) message.(id) message Given ;;;
             ret false
           else ret true
         else ret false) ;;
      (* If not visible, skip to next message *)
      st <- get ;;
      let cursor := Table.cursor this.(queue) st.(own) in
      let next := Cursor.goToNext cursor key in
      if falsy_key next then
        (* No valid messages in queue *)
        commit ;;;
        ret ReturnNull
      else
        let key := key_or_zero next in
        match Cursor.getCurrentString cursor key with
        | None => throw "TypeError: Cannot read properties of null"
        | Some message =>
            if valid : bool then ret (Selected key message)
            else receive_loop this now fuel key message
        end
  end.

Definition receive (this : Queue) (now : Z) (db : Tables)
  : Result (option Message) * State :=
  let txn := Database.beginWrite db in
  ( (* Find the earliest message in the queue *)
    let cursor := Table.cursor this.(queue) txn in
    let key := Cursor.goToRange cursor 0 in
    if falsy_key key then
      abort ;;;
      ret None
    else
      let key := key_or_zero key in
      match Cursor.getCurrentString cursor key with
      | None => throw "TypeError: Cannot read properties of null"
      | Some message =>
          let dedupKey := or_else message.(dedupKey) message.(body) in
          if negb this.(config).(QueueConfig.requireAck) then
            match this.(index) with
            | Some index => Table.del index dedupKey Given
            | None => ret tt
            end ;;;
            Table.del this.(queue) message.(id) Given ;;;
            let message := deliver message now in
            commit ;;;
            ret (Some message)
          else
            exit <- receive_loop this now (S (size cursor)) key message ;;
            match exit with
            | ReturnNull => ret None
            | Selected _ message =>
                (* update message metadata *)
                let message := deliver message now in
                (* If not requireAck, delete from queue and index *)
                (if negb this.(config).(QueueConfig.requireAck) then
                   match this.(index) with
                   | Some index => Table.del index dedupKey Given
                   | None => ret tt
                   end ;;;
                   Table.del this.(queue) message.(id) Given
                 else
                   (* Otherwise, update message metadata *)
                   Table.putString this.(queue) message.(id) message Given) ;;;
                (* Commit transaction and return message *)
                commit ;;;
                ret (Some message)
            end
      end
  ) (mkState db txn).

Definition ack (this : Queue) (message : Message) (db : Tables)
  : Result unit * State :=
  (* begin transaction *)
  let txn := Database.beginWrite db in
  ( (* delete from queue *)
    Table.del this.(queue) message.(id) Given ;;;
    (* delete from index *)
    match this.(index) with
    | Some index =>
        Table.del index (or_else message.(dedupKey) message.(body)) Given
    | None => ret tt
    end ;;;
    (* commit transaction *)
    commit
  ) (mkState db txn).

Definition sweepDeadMessages (this : Queue) (db : Tables)
  : Result unit * Tables :=
  (Throw "not implemented", db).

Definition receiveDeadletter (this : Queue) (db : Tables)
  : Result Message * Tables :=
  (Throw "not implemented", db).

Definition purge (this : Queue) (db : Tables) : Result unit * Tables :=
  (Throw "not implemented", db).

Definition purgeDeadletter (this : Queue) (db : Tables)
  : Result unit * Tables :=
  (Throw "not implemented", db).

Definition redriveDeadletter (this : Queue) (db : Tables)
  : Result unit * Tables :=
  (Throw "not implemented", db).
End Queue.

(** ** Vocabulary of the statements *)

(** The error taxonomy of the specification, as the message texts the
    source throws. *)
Definition TransactionStateError : string :=
  "The transaction is already closed.".
Definition ReadOnlyViolation : string := "The transaction is read-only.".
Definition DedupUnsupported : string :=
  "This queue does not support deduplication".
Definition KeySizeExceeded (e : string) : Prop :=
  e = "Key<Buffer> size exceeds maximum length of 511" ∨
  e = "Key<string> size exceeds maximum length of 255".

(** The data operations of a transaction: the reads and the mutations. *)
Definition data_reads {K V} `{Countable K, !Key K, !Value V}
    (table : Table K V) (key : K) : list (M Transaction (option V)) :=
  [ Transaction.getString table key; Transaction.getBinary table key;
    Transaction.getNumber table key; Transaction.getBoolean table key;
    Transaction.getStringUnsafe table key;
    Transaction.getBinaryUnsafe table key ].

Definition data_writes {K V} `{Countable K, !Key K} (table : Table K V)
    (key : K) (value : V) : list (M Transaction unit) :=
  [ Transaction.putString table key value;
    Transaction.putBinary table key value;
    Transaction.putNumber table key value;
    Transaction.putBoolean table key value;
    Transaction.del table key ].

(** Whether [assertKeySize] lets a key through. *)
Definition key_fits {K} `{Key K} (key : K) : bool :=
  match assertKeySize key tt with
  | (Ok _, _) => true
  | (Throw _, _) => false
  end.

(** A string key of 256 code units: 512 encoded bytes. *)
Definition long_key : string := string_of_list_ascii (replicate 256 "a"%char).

Definition empty_db : Tables := mkTables ∅ ∅.

(** An open write transaction whose private copy of the tables is [t]. *)
Definition writing (t : Tables) : Transaction :=
  mkTransaction (mkTxn false t) true false false.

(** Queues used as concrete inputs. *)
Definition plain_options : QueueOptions.t :=
  QueueOptions.mk "jobs" None None None None None.
Definition dedup_options : QueueOptions.t :=
  QueueOptions.mk "jobs" (Some true) None None None None.
Definition auto_ack_options : QueueOptions.t :=
  QueueOptions.mk "jobs" None (Some false) None None None.

(** The id [send] assigns and the record it stores. *)
Definition nextId (s : gmap Z Message) : Z :=
  key_or_zero (Cursor.goToLast s) + 1.

Definition fresh (s : gmap Z Message) (body : string)
    (dedupKey : option string) (now : Z) : Message :=
  mkMessage (nextId s) now 0 0 body dedupKey.

(** [lastLiveId ()] of the specification: the greatest key of the live
    partition (keys at or above zero), if there is one. *)
Definition lastLiveId (s : gmap Z Message) : option Z :=
  greatest (filter (λ k, 0 ≤ k) (elements (dom s))).

(** The lease states of the specification, from the fields [receive]
    tests: a message is expired when it was delivered and its visibility
    timeout has run out, exhausted when it used up its deliveries, dead
    when both, and selectable when it was never delivered or is expired
    with deliveries left. *)
Definition expired (c : QueueConfig.t) (now : Z) (m : Message) : bool :=
  negb (m.(received) =? 0) &&
  (now - m.(received) >? c.(QueueConfig.visibilityTimeoutSecs) * 1000).

Definition exhausted (c : QueueConfig.t) (m : Message) : bool :=
  m.(numReceives) >=? c.(QueueConfig.maxReceives).

Definition dead (c : QueueConfig.t) (now : Z) (m : Message) : bool :=
  expired c now m && exhausted c m.

Definition selectable (c : QueueConfig.t) (now : Z) (m : Message) : bool :=
  (m.(received) =? 0) || (expired c now m && negb (exhausted c m)).

(** Every record sits under the key its [id] field names. *)
Definition stored_under_id (s : gmap Z Message) : Prop :=
  map_Forall (λ k m, m.(id) = k) s.

(** What one pass of the [receive] loop leaves in the message store: a dead
    message is deleted at its id and put back, id negated, at the negated
    key. *)
Definition visit (c : QueueConfig.t) (now : Z) (s : gmap Z Message)
    (m : Message) : gmap Z Message :=
  if dead c now m
  then <[- m.(id) := setId m (- m.(id))]> (delete m.(id) s)
  else s.

(** The live keys a scan at position [key] has still ahead of it. *)
Definition ahead (s : gmap Z Message) (key : Z) : gset Z :=
  filter (λ k, key < k) (dom s).

(** The state in which the loop of [receive] is left. *)
Definition loop_end (db : Tables) (ix : gmap string Z) (s : gmap Z Message)
    (exit : LoopExit) : State :=
  match exit with
  | ReturnNull =>
      mkState (mkTables s ix) (Transaction.close (writing (mkTables s ix)))
  | Selected _ _ => mkState db (writing (mkTables s ix))
  end.

(** What the loop of [receive], entered at [key] on the message store
    [s], has done when it is left by [exit] with the store [s']:
    - records still sit under their ids;
    - a key holds what it held, or is one of the two keys of a dead message
      that was moved from its id to the negated id;
    - a selected record lies after [key] and was not changed;
    - a dead message with nothing selectable between [key] and it has been
      moved and is not the record selected. *)
Definition scanned (c : QueueConfig.t) (now key : Z)
    (s s' : gmap Z Message) (exit : LoopExit) : Prop :=
  stored_under_id s' ∧
  (∀ k, s' !! k = s !! k ∨
        ∃ m, dead c now m = true ∧ key ≤ m.(id) ∧
             s !! m.(id) = Some m ∧ s' !! m.(id) = None ∧
             s' !! (- m.(id)) = Some (setId m (- m.(id))) ∧
             (k = m.(id) ∨ k = - m.(id))) ∧
  (∀ k m, exit = Selected k m →
          key < k ∧ s !! k = Some m ∧ s' !! k = Some m) ∧
  (∀ k m, key ≤ k → s !! k = Some m → dead c now m = true →
          (∀ j mj, key ≤ j < k → s !! j = Some mj →
                   selectable c now mj = false) →
          s' !! k = None ∧ s' !! (- k) = Some (setId m (- k)) ∧
          ∀ m', exit ≠ Selected k m').

(** The message store that holds the given records, each under its id. *)
Definition store_of (l : list Message) : gmap Z Message :=
  list_to_map ((λ m, (m.(id), m)) <$> l).

(** The stores a queue can be in: the empty store, and whatever [send],
    [receive] and [ack] leave committed, under any configuration. *)
Inductive reachable : Tables → Prop :=
| reachable_empty : reachable empty_db
| reachable_send options body dedupKey now db :
    reachable db →
    reachable (Queue.send (Queue.new options) body dedupKey now db).2.(env)
| reachable_receive options now db :
    reachable db →
    reachable (Queue.receive (Queue.new options) now db).2.(env)
| reachable_ack options message db :
    reachable db →
    reachable (Queue.ack (Queue.new options) message db).2.(env).

(** A reachable store with two worn-out messages.  Three messages are
    sent; message 2 is delivered three times while message 1 waits; message
    1 is acknowledged; a consumer configured with no visibility timeout and
    ten deliveries then gets message 3 three times.  Under the default
    configuration messages 2 and 3 are now exhausted. *)
Definition patient_options : QueueOptions.t :=
  QueueOptions.mk "jobs" None None (Some 0) (Some 10) None.

Definition worn_db : Tables :=
  let this := Queue.new plain_options in
  let patient := Queue.new patient_options in
  let db1 := (Queue.send this "a" None 1000 empty_db).2.(env) in
  let db2 := (Queue.send this "b" None 1001 db1).2.(env) in
  let db3 := (Queue.send this "c" None 1002 db2).2.(env) in
  let db4 := (Queue.receive this 2000 db3).2.(env) in
  let db5 := (Queue.receive this 3000 db4).2.(env) in
  let db6 := (Queue.receive this 4000 db5).2.(env) in
  let db7 := (Queue.ack this (mkMessage 1 1000 0 0 "a" None) db6).2.(env) in
  let db8 := (Queue.receive patient 5000 db7).2.(env) in
  let db9 := (Queue.receive patient 6000 db8).2.(env) in
  (Queue.receive patient 7000 db9).2.(env).

(** A table handle names a keyspace of the environment: what is written
    through it is what is read through it. *)
Definition lawful {K V} `{Countable K} (table : Table K V) : Prop :=
  ∀ m t, dbi_read table (dbi_write table m t) = m.

(** The reads and the mutations of a table, with the optional transaction
    argument they are given. *)
Definition table_reads {K V} `{Countable K, !Key K, !Value V}
    (table : Table K V) (key : K) (txn : TxnArg) : list (M State (option V)) :=
  [ Table.getString table key txn; Table.getStringUnsafe table key txn;
    Table.getBinary table key txn; Table.getBinaryUnsafe table key txn;
    Table.getNumber table key txn; Table.getBoolean table key txn ].

Definition table_writes {K V} `{Countable K, !Key K} (table : Table K V)
    (key : K) (value : V) (txn : TxnArg) : list (M State unit) :=
  [ Table.putString table key value txn; Table.putBinary table key value txn;
    Table.putNumber table key value txn; Table.putBoolean table key value txn;
    Table.del table key txn ].

(** The accessors of one value type: the write, and the reads that return
    what it wrote. *)
Definition put_as {K V} `{Countable K, !Key K} (as_type : ValueType)
    (table : Table K V) (key : K) (value : V) : M Transaction unit :=
  match as_type with
  | StringValue => Transaction.putString table key value
  | BinaryValue => Transaction.putBinary table key value
  | NumberValue => Transaction.putNumber table key value
  | BooleanValue => Transaction.putBoolean table key value
  end.

Definition reads_as {K V} `{Countable K, !Key K, !Value V}
    (as_type : ValueType) (table : Table K V) (key : K)
  : list (M Transaction (option V)) :=
  match as_type with
  | StringValue =>
      [ Transaction.getString table key; Transaction.getStringUnsafe table key ]
  | BinaryValue =>
      [ Transaction.getBinary table key; Transaction.getBinaryUnsafe table key ]
  | NumberValue => [ Transaction.getNumber table key ]
  | BooleanValue => [ Transaction.getBoolean table key ]
  end.

Definition table_put_as {K V} `{Countable K, !Key K} (as_type : ValueType)
    (table : Table K V) (key : K) (value : V) (txn : TxnArg) : M State unit :=
  match as_type with
  | StringValue => Table.putString table key value txn
  | BinaryValue => Table.putBinary table key value txn
  | NumberValue => Table.putNumber table key value txn
  | BooleanValue => Table.putBoolean table key value txn
  end.

Definition table_reads_as {K V} `{Countable K, !Key K, !Value V}
    (as_type : ValueType) (table : Table K V) (key : K) (txn : TxnArg)
  : list (M State (option V)) :=
  match as_type with
  | StringValue =>
      [ Table.getString table key txn; Table.getStringUnsafe table key txn ]
  | BinaryValue =>
      [ Table.getBinary table key txn; Table.getBinaryUnsafe table key txn ]
  | NumberValue => [ Table.getNumber table key txn ]
  | BooleanValue => [ Table.getBoolean table key txn ]
  end.

(** The caller holds no open write transaction: its transaction is
    finished or read-only. *)
Definition no_open_writer (this : Transaction) : Prop :=
  this.(isClosed) = true ∨ this.(isWriteable) = false.

(** Keep the calls of the source visible while a proof steps through an
    operation. *)
Arguments Table.del : simpl never.
Arguments Table.getString : simpl never.
Arguments Table.putString : simpl never.
Arguments Table.getNumber : simpl never.
Arguments Table.putNumber : simpl never.
Arguments Table.cursor : simpl never.
Arguments Cursor.goToLast : simpl never.
Arguments Cursor.goToRange : simpl never.
Arguments Cursor.goToNext : simpl never.
Arguments Database.beginWrite : simpl never.
Arguments commit : simpl never.
Arguments abort : simpl never.
Arguments writing : simpl never.
Arguments key_fits : simpl never.

(** * Properties *)

(** ** The ordered cursor *)

Section cursor_facts.
Context {V : Type}.
Implicit Types (s : gmap Z V) (l : list Z) (k : Z).

Lemma least_None l : least l = None ↔ l = [].
Proof. destruct l; simpl; split; congruence. Qed.

Lemma least_Some l k :
  least l = Some k ↔ k ∈ l ∧ ∀ j, j ∈ l → k ≤ j.
Proof.
  revert k. induction l as [|a l IH]; intros k; simpl.
  - split; [discriminate | intros [Hin _]; inversion Hin].
  - destruct (least l) as [b|] eqn:Hb; simpl.
    + destruct (IH b) as [[Hbin Hble] _]; [done|].
      split.
      * intros [= <-]. split.
        -- apply elem_of_cons.
           destruct (Z.min_spec a b) as [[_ ->]|[_ ->]]; auto.
        -- intros j [->|Hj]%elem_of_cons; [lia|]. specialize (Hble j Hj). lia.
      * intros [Hk Hmin]. f_equal.
        assert (k ≤ a) by (apply Hmin; left).
        assert (k ≤ b) by (apply Hmin; by right).
        apply elem_of_cons in Hk as [->|Hk]; [lia|].
        pose proof (Hble k Hk). lia.
    + apply least_None in Hb as ->. split.
      * intros [= <-]. split; [by apply elem_of_cons; left|].
        intros j [->|Hj]%elem_of_cons; [lia | inversion Hj].
      * intros [[->|Hk]%elem_of_cons _]; [done | inversion Hk].
Qed.

Lemma greatest_None l : greatest l = None ↔ l = [].
Proof. destruct l; simpl; split; congruence. Qed.

Lemma greatest_Some l k :
  greatest l = Some k ↔ k ∈ l ∧ ∀ j, j ∈ l → j ≤ k.
Proof.
  revert k. induction l as [|a l IH]; intros k; simpl.
  - split; [discriminate | intros [Hin _]; inversion Hin].
  - destruct (greatest l) as [b|] eqn:Hb; simpl.
    + destruct (IH b) as [[Hbin Hble] _]; [done|].
      split.
      * intros [= <-]. split.
        -- apply elem_of_cons.
           destruct (Z.max_spec a b) as [[_ ->]|[_ ->]]; auto.
        -- intros j [->|Hj]%elem_of_cons; [lia|]. specialize (Hble j Hj). lia.
      * intros [Hk Hmax]. f_equal.
        assert (a ≤ k) by (apply Hmax; left).
        assert (b ≤ k) by (apply Hmax; by right).
        apply elem_of_cons in Hk as [->|Hk]; [lia|].
        pose proof (Hble k Hk). lia.
    + apply greatest_None in Hb as ->. split.
      * intros [= <-]. split; [by apply elem_of_cons; left|].
        intros j [->|Hj]%elem_of_cons; [lia | inversion Hj].
      * intros [[->|Hk]%elem_of_cons _]; [done | inversion Hk].
Qed.

Lemma goToLast_Some s k :
  Cursor.goToLast s = Some k ↔
  is_Some (s !! k) ∧ ∀ j, is_Some (s !! j) → j ≤ k.
Proof.
  unfold Cursor.goToLast. rewrite greatest_Some, elem_of_elements, elem_of_dom.
  split; intros [Hk Hall]; (split; [done|]); intros j Hj; apply Hall.
  - by apply elem_of_elements, elem_of_dom.
  - by apply elem_of_elements, elem_of_dom in Hj.
Qed.

Lemma goToLast_None s : Cursor.goToLast s = None ↔ s = ∅.
Proof.
  unfold Cursor.goToLast. rewrite greatest_None. split.
  - intros Hnil. apply elements_empty_inv in Hnil.
    apply dom_empty_inv_L. by apply leibniz_equiv.
  - intros ->. by rewrite dom_empty_L, elements_empty.
Qed.

Lemma goToRange_Some s target k :
  Cursor.goToRange s target = Some k ↔
  is_Some (s !! k) ∧ target ≤ k ∧
  ∀ j, is_Some (s !! j) → target ≤ j → k ≤ j.
Proof.
  unfold Cursor.goToRange.
  rewrite least_Some, list_elem_of_filter, elem_of_elements, elem_of_dom.
  split.
  - intros [[Hle Hk] Hall]. repeat split; [done..|].
    intros j Hj Hlej. apply Hall.
    by rewrite list_elem_of_filter, elem_of_elements, elem_of_dom.
  - intros (Hk & Hle & Hall). repeat split; [done..|].
    intros j. rewrite list_elem_of_filter, elem_of_elements, elem_of_dom.
    intros [? ?]. by apply Hall.
Qed.

Lemma goToRange_None s target :
  Cursor.goToRange s target = None ↔ ∀ j, is_Some (s !! j) → j < target.
Proof.
  unfold Cursor.goToRange. rewrite least_None. split.
  - intros Hnil j Hj. destruct (decide (target ≤ j)) as [Hle|]; [|lia].
    assert (j ∈ filter (λ k, target ≤ k) (elements (dom s))) as Hin
      by by rewrite list_elem_of_filter, elem_of_elements, elem_of_dom.
    rewrite Hnil in Hin. inversion Hin.
  - intros Hall. destruct (filter _ _) as [|a l] eqn:Hf; [done|].
    assert (a ∈ filter (λ k, target ≤ k) (elements (dom s))) as Hin
      by (rewrite Hf; apply elem_of_cons; by left).
    rewrite list_elem_of_filter, elem_of_elements, elem_of_dom in Hin.
    destruct Hin as [Hle Ha]. specialize (Hall a Ha). lia.
Qed.
End cursor_facts.

(** ** transaction.ts: the guards *)

Lemma assertKeySize_fits {K} `{Key K} (key : K) :
  key_fits key = true → ∀ S (s : S), assertKeySize key s = (Ok tt, s).
Proof.
  unfold key_fits, assertKeySize. intros Hfit S s.
  destruct (key_shape key) as [n|n|]; [| |done];
    destruct (_ >? _); done.
Qed.

Lemma assertKeySize_too_long {K} `{Key K} (key : K) :
  key_fits key = false →
  ∃ e, KeySizeExceeded e ∧ ∀ S (s : S), assertKeySize key s = (Throw e, s).
Proof.
  unfold key_fits, assertKeySize, KeySizeExceeded. intros Hfit.
  destruct (key_shape key) as [n|n|]; [| |done];
    destruct (_ >? _); try done; eauto.
Qed.

Lemma key_fits_number (key : Z) : key_fits key = true.
Proof. done. Qed.

Lemma key_fits_string (key : string) :
  key_fits key = true ↔ Z.of_nat (String.length key) * 2 ≤ MAX_KEY_SIZE.
Proof.
  unfold key_fits, assertKeySize. simpl.
  destruct (Z.gtb_spec (Z.of_nat (String.length key) * 2) MAX_KEY_SIZE);
    simpl; split; intros; (done || lia).
Qed.

Section guards.
Context {K V : Type} `{Countable K, !Key K}.
Implicit Types (table : Table K V) (key : K) (this : Transaction).

Lemma assertRead_closed key this :
  key_fits key = true →
  this.(isClosed) = true ∨ this.(isReset) = true →
  Transaction.assertRead key this = (Throw TransactionStateError, this).
Proof.
  intros Hfit Hstate. unfold Transaction.assertRead, bind.
  rewrite (assertKeySize_fits key Hfit). simpl.
  destruct Hstate as [-> | ->]; by rewrite ?orb_true_r.
Qed.

Lemma assertRead_open key this :
  key_fits key = true →
  this.(isClosed) = false → this.(isReset) = false →
  Transaction.assertRead key this = (Ok tt, this).
Proof.
  intros Hfit Hc Hr. unfold Transaction.assertRead, bind.
  rewrite (assertKeySize_fits key Hfit). simpl. by rewrite Hc, Hr.
Qed.

Lemma assertRead_too_long key this :
  key_fits key = false →
  ∃ e, KeySizeExceeded e ∧ Transaction.assertRead key this = (Throw e, this).
Proof.
  intros Hfit. destruct (assertKeySize_too_long key Hfit) as (e & He & Hthrow).
  exists e. split; [done|]. unfold Transaction.assertRead, bind.
  by rewrite Hthrow.
Qed.

Lemma assertWrite_open key this :
  key_fits key = true →
  this.(isClosed) = false → this.(isReset) = false →
  this.(isWriteable) = true →
  Transaction.assertWrite key this = (Ok tt, this).
Proof.
  intros Hfit Hc Hr Hw. unfold Transaction.assertWrite, bind.
  rewrite assertRead_open by done. simpl. by rewrite Hw.
Qed.
End guards.

(** C9, as amended: a data operation whose key passes the key-size check
    throws the transaction-state error on a transaction that was committed,
    aborted or reset, and a mutating operation whose key passes the check
    throws the read-only violation on an open read-only transaction; in
    both cases the transaction, and with it the store, is left as it was. *)
Theorem closed_or_read_only_rejected {K V : Type}
    `{Countable K, !Key K, !Value V}
    (table : Table K V) (key : K) (value : V) (this : Transaction) :
  key_fits key = true →
  (this.(isClosed) = true ∨ this.(isReset) = true →
     Forall (λ op, op this = (Throw TransactionStateError, this))
            (data_reads table key) ∧
     Forall (λ op, op this = (Throw TransactionStateError, this))
            (data_writes table key value)) ∧
  (this.(isClosed) = false → this.(isReset) = false →
   this.(isWriteable) = false →
     Forall (λ op, op this = (Throw ReadOnlyViolation, this))
            (data_writes table key value)).
Proof.
  intros Hfit. split.
  - intros Hstate. split; repeat apply Forall_cons_2; try apply Forall_nil_2.
    all: unfold Transaction.getString, Transaction.getBinary,
           Transaction.getNumber, Transaction.getBoolean,
           Transaction.getStringUnsafe, Transaction.getBinaryUnsafe,
           Transaction.putString, Transaction.putBinary,
           Transaction.putNumber, Transaction.putBoolean,
           Transaction.del, Transaction.assertWrite, bind.
    all: by rewrite (assertRead_closed key this Hfit Hstate).
  - intros Hc Hr Hw. repeat apply Forall_cons_2; try apply Forall_nil_2.
    all: unfold Transaction.putString, Transaction.putBinary,
           Transaction.putNumber, Transaction.putBoolean,
           Transaction.del, Transaction.assertWrite, bind.
    all: rewrite (assertRead_open key this Hfit Hc Hr); simpl; by rewrite Hw.
Qed.

Lemma closed_or_read_only_rejected_witness :
  let committed :=
    (Transaction.commit (Database.beginWrite empty_db) empty_db).1 in
  let reader := Database.beginRead empty_db in
  (Forall (λ op, op committed = (Throw TransactionStateError, committed))
          (data_reads index_table "k") ∧
   Forall (λ op, op committed = (Throw TransactionStateError, committed))
          (data_writes index_table "k" 7)) ∧
  Forall (λ op, op reader = (Throw ReadOnlyViolation, reader))
         (data_writes index_table "k" 7).
Proof.
  intros committed reader. split.
  - destruct (closed_or_read_only_rejected index_table "k" 7 committed)
      as [Hclosed _]; [reflexivity|].
    apply Hclosed. left. reflexivity.
  - destruct (closed_or_read_only_rejected index_table "k" 7 reader)
      as [_ Hro]; [reflexivity|].
    apply Hro; reflexivity.
Defined.

(** C9 as stated fails: on a committed transaction a read with a string key
    of 256 code units throws the key-size error, because [assertRead] checks
    the key size before the transaction state. *)
Lemma closed_transaction_long_key_counterexample :
  let committed := (Transaction.commit (Database.beginWrite empty_db) empty_db).1 in
  committed.(isClosed) = true ∧
  (Transaction.getString index_table long_key committed).1
    = Throw "Key<string> size exceeds maximum length of 255" ∧
  (Transaction.getString index_table long_key committed).1
    ≠ Throw TransactionStateError.
Proof. vm_compute. repeat split; discriminate. Qed.

(** ** table.ts inside a queue operation *)

Section table_steps.
Implicit Types (db t : Tables) (own : Transaction).

Lemma writing_begin db : Database.beginWrite db = writing db.
Proof. reflexivity. Qed.

Lemma getString_omitted_absent db own (key : string) :
  key_fits key = true →
  index_data db !! key = None →
  Table.getString index_table key Omitted (mkState db own)
  = (Ok None, mkState db own).
Proof.
  intros Hfit Habsent.
  unfold Table.getString, Table.useTransaction, Transaction.getString, bind.
  rewrite assertRead_open by done.
  unfold get, result, Txn_read, Txn_get.
  cbn [env Transaction.new txn beginTxn data dbi_read index_table].
  rewrite Habsent. reflexivity.
Qed.

(** The entries of the dedup table are numbers: [getString] does not read
    them back. *)
Lemma getString_omitted_number db own (key : string) :
  key_fits key = true →
  is_Some (index_data db !! key) →
  Table.getString index_table key Omitted (mkState db own)
  = (Throw TypeMismatch, mkState db own).
Proof.
  intros Hfit [ts Hts].
  unfold Table.getString, Table.useTransaction, Transaction.getString, bind.
  rewrite assertRead_open by done.
  unfold get, result, Txn_read, Txn_get.
  cbn [env Transaction.new txn beginTxn data dbi_read index_table].
  rewrite Hts. reflexivity.
Qed.

Lemma getString_omitted_too_long db own (key : string) :
  key_fits key = false →
  ∃ e, KeySizeExceeded e ∧
       Table.getString index_table key Omitted (mkState db own)
       = (Throw e, mkState db own).
Proof.
  intros Hfit.
  destruct (assertRead_too_long key (Transaction.new db None) Hfit)
    as (e & He & Hthrow).
  exists e. split; [done|].
  unfold Table.getString, Table.useTransaction, Transaction.getString, bind.
  cbn [env]. rewrite Hthrow. reflexivity.
Qed.

Lemma putString_queue db t (key : Z) (value : Message) :
  Table.putString queue_table key value Given (mkState db (writing t))
  = (Ok tt, mkState db (writing (mkTables (<[key := value]> t.(queue_data))
                                           t.(index_data)))).
Proof. reflexivity. Qed.

Lemma del_queue db t (key : Z) :
  Table.del queue_table key Given (mkState db (writing t))
  = (Ok tt, mkState db (writing (mkTables (delete key t.(queue_data))
                                           t.(index_data)))).
Proof. reflexivity. Qed.

Lemma putNumber_index db t (key : string) (value : Z) :
  key_fits key = true →
  Table.putNumber index_table key value Given (mkState db (writing t))
  = (Ok tt, mkState db (writing (mkTables t.(queue_data)
                                           (<[key := value]> t.(index_data))))).
Proof.
  intros Hfit.
  unfold Table.putNumber, Table.useTransaction, Transaction.putNumber, bind.
  simpl. rewrite assertWrite_open by done. reflexivity.
Qed.

Lemma del_index db t (key : string) :
  key_fits key = true →
  Table.del index_table key Given (mkState db (writing t))
  = (Ok tt, mkState db (writing (mkTables t.(queue_data)
                                           (delete key t.(index_data))))).
Proof.
  intros Hfit.
  unfold Table.del, Table.useTransaction, Transaction.del, bind.
  simpl. rewrite assertWrite_open by done. reflexivity.
Qed.

Lemma del_index_too_long db t (key : string) :
  key_fits key = false →
  ∃ e, KeySizeExceeded e ∧
       Table.del index_table key Given (mkState db (writing t))
       = (Throw e, mkState db (writing t)).
Proof.
  intros Hfit.
  destruct (assertRead_too_long key (writing t) Hfit) as (e & He & Hthrow).
  exists e. split; [done|].
  unfold Table.del, Table.useTransaction, Transaction.del,
    Transaction.assertWrite, bind.
  cbn [env own]. rewrite Hthrow. reflexivity.
Qed.

Lemma cursor_writing t :
  Table.cursor queue_table (writing t) = t.(queue_data).
Proof. reflexivity. Qed.

Lemma commit_writing db t :
  commit (mkState db (writing t))
  = (Ok tt, mkState t (Transaction.close (writing t))).
Proof. reflexivity. Qed.
End table_steps.

(** ** send *)

Section send_facts.
Variable options : QueueOptions.t.
Implicit Types (db : Tables) (body : string) (dedupKey : option string).

Lemma or_else_falsy dedupKey body :
  truthy dedupKey = false → or_else dedupKey body = body.
Proof. unfold or_else. destruct dedupKey; [intros ->|]; done. Qed.

Lemma send_without_index body dedupKey now db :
  default false options.(QueueOptions.dedup) = false →
  Queue.send (Queue.new options) body dedupKey now db
  = let t := mkTables (<[nextId db.(queue_data) :=
                           fresh db.(queue_data) body dedupKey now]>
                         db.(queue_data)) db.(index_data) in
    (Ok true, mkState t (Transaction.close (writing t))).
Proof.
  intros Hoff. unfold Queue.send, Queue.new. cbn [index queue config].
  rewrite Hoff, writing_begin. unfold bind, ret, get. cbn.
  rewrite putString_queue. cbn. rewrite commit_writing. reflexivity.
Qed.

Lemma send_explicit_key body dedupKey now db :
  default false options.(QueueOptions.dedup) = true →
  truthy dedupKey = true →
  Queue.send (Queue.new options) body dedupKey now db
  = (Throw DedupUnsupported, mkState db (writing db)).
Proof.
  intros Hon Hkey. unfold Queue.send, Queue.new. cbn [index queue config].
  rewrite Hon, Hkey, writing_begin. reflexivity.
Qed.

Lemma send_too_long body dedupKey now db :
  default false options.(QueueOptions.dedup) = true →
  truthy dedupKey = false →
  key_fits body = false →
  ∃ e, KeySizeExceeded e ∧
       Queue.send (Queue.new options) body dedupKey now db
       = (Throw e, mkState db (writing db)).
Proof.
  intros Hon Hkey Hfit.
  destruct (getString_omitted_too_long db (writing db) body Hfit)
    as (e & He & Hget).
  exists e. split; [done|].
  unfold Queue.send, Queue.new. cbn [index queue config].
  rewrite Hon, Hkey, or_else_falsy, writing_begin by done.
  unfold bind, ret, get. rewrite Hget. reflexivity.
Qed.

(** A body that is in the index: the duplicate check reads with
    [getString] the entry [putNumber] wrote. *)
Lemma send_duplicate body dedupKey now db :
  default false options.(QueueOptions.dedup) = true →
  truthy dedupKey = false →
  key_fits body = true →
  is_Some (db.(index_data) !! body) →
  Queue.send (Queue.new options) body dedupKey now db
  = (Throw TypeMismatch, mkState db (writing db)).
Proof.
  intros Hon Hkey Hfit Hold.
  unfold Queue.send, Queue.new. cbn [index queue config].
  rewrite Hon, Hkey, or_else_falsy, writing_begin by done.
  unfold bind, ret, get. rewrite getString_omitted_number by done.
  reflexivity.
Qed.

Lemma send_first_time body dedupKey now db :
  default false options.(QueueOptions.dedup) = true →
  truthy dedupKey = false →
  key_fits body = true →
  db.(index_data) !! body = None →
  Queue.send (Queue.new options) body dedupKey now db
  = let t := mkTables (<[nextId db.(queue_data) :=
                           fresh db.(queue_data) body dedupKey now]>
                         db.(queue_data))
                      (<[body := now]> db.(index_data)) in
    (Ok true, mkState t (Transaction.close (writing t))).
Proof.
  intros Hon Hkey Hfit Hnew.
  unfold Queue.send, Queue.new. cbn [index queue config].
  rewrite Hon, Hkey, or_else_falsy, writing_begin by done.
  unfold bind, ret, get. rewrite getString_omitted_absent by done.
  cbn.
  rewrite putString_queue. cbn.
  rewrite putNumber_index by done. rewrite commit_writing. reflexivity.
Qed.
End send_facts.

Lemma lastLiveId_Some (s : gmap Z Message) (last : Z) :
  lastLiveId s = Some last ↔
  is_Some (s !! last) ∧ 0 ≤ last ∧ ∀ j, is_Some (s !! j) → 0 ≤ j → j ≤ last.
Proof.
  unfold lastLiveId.
  rewrite greatest_Some, list_elem_of_filter, elem_of_elements, elem_of_dom.
  split.
  - intros [[Hle Hk] Hall]. repeat split; [done..|].
    intros j Hj Hlej. apply Hall.
    by rewrite list_elem_of_filter, elem_of_elements, elem_of_dom.
  - intros (Hk & Hle & Hall). repeat split; [done..|].
    intros j. rewrite list_elem_of_filter, elem_of_elements, elem_of_dom.
    intros [? ?]. by apply Hall.
Qed.

Lemma lastLiveId_goToLast (s : gmap Z Message) (last : Z) :
  lastLiveId s = Some last → Cursor.goToLast s = Some last.
Proof.
  rewrite lastLiveId_Some, goToLast_Some. intros (Hk & Hle & Hall).
  split; [done|]. intros j Hj.
  destruct (decide (0 ≤ j)); [by apply Hall | lia].
Qed.

(** Every path through [send], by what decides it. *)
Lemma send_cases (options : QueueOptions.t) (body : string)
    (dedupKey : option string) (now : Z) (db : Tables) :
  let r := Queue.send (Queue.new options) body dedupKey now db in
  (∃ e, r = (Throw e, mkState db (writing db))) ∨
  r = (Ok false, mkState db (writing db)) ∨
  (r.1 = Ok true ∧
   queue_data r.2.(env)
   = <[nextId db.(queue_data) := fresh db.(queue_data) body dedupKey now]>
       db.(queue_data)).
Proof.
  intros r. subst r.
  destruct (default false options.(QueueOptions.dedup)) eqn:Hdedup.
  - destruct (truthy dedupKey) eqn:Hkey.
    { left. eexists. by apply send_explicit_key. }
    destruct (key_fits body) eqn:Hfit.
    + destruct (db.(index_data) !! body) as [ts|] eqn:Hix.
      * left. eexists. apply send_duplicate; eauto.
      * right; right. by rewrite send_first_time.
    + left. destruct (send_too_long options body dedupKey now db)
        as (e & _ & ->); eauto.
  - right; right. by rewrite send_without_index.
Qed.

(** C2 (code defect): on every dedup-enabled queue a send that supplies a
    non-empty dedup key throws instead of being accepted, whatever the
    store holds. *)
Theorem send_with_explicit_dedup_key_throws
    (name : string) (requireAck : option bool)
    (visibilityTimeoutSecs maxReceives maxRetentionHours : option Z)
    (body : string) (c : ascii) (rest : string) (now : Z) (db : Tables) :
  Queue.send
    (Queue.new (QueueOptions.mk name (Some true) requireAck
                  visibilityTimeoutSecs maxReceives maxRetentionHours))
    body (Some (String c rest)) now db
  = (Throw "This queue does not support deduplication",
     mkState db (writing db)).
Proof. by apply send_explicit_key. Qed.

(** C4 (code defect): when [send] throws, the write transaction it began is
    neither committed nor aborted: it is still open when the error reaches
    the caller.  Nothing was committed. *)
Theorem throwing_send_leaves_transaction_open
    (name : string) (requireAck : option bool)
    (visibilityTimeoutSecs maxReceives maxRetentionHours : option Z)
    (body : string) (c : ascii) (rest : string) (now : Z) (db : Tables) :
  let r := Queue.send
             (Queue.new (QueueOptions.mk name (Some true) requireAck
                           visibilityTimeoutSecs maxReceives maxRetentionHours))
             body (Some (String c rest)) now db in
  r.1 = Throw DedupUnsupported ∧
  r.2.(own).(isClosed) = false ∧
  r.2.(own) ≠ (Transaction.abort (Database.beginWrite db) db).1 ∧
  r.2.(env) = db.
Proof.
  intros r. subst r. rewrite send_explicit_key by done.
  repeat split. discriminate.
Qed.

(** C8 (code defect): with an explicit dedup key over the size limit the
    send fails, but with the error of the explicit-key rejection, not with
    a key-size error. *)
Theorem send_long_explicit_key_not_key_size_error :
  key_fits long_key = false ∧
  (Queue.send (Queue.new dedup_options) "payload" (Some long_key) 1000 empty_db).1
  = Throw DedupUnsupported ∧
  ¬ KeySizeExceeded DedupUnsupported.
Proof.
  split; [reflexivity|]. split; [reflexivity|].
  intros [H|H]; discriminate H.
Qed.

(** C10: the dedup index exists exactly when the options carry a truthy
    [dedup]; when the property is absent the merged configuration still
    says [dedup = true], there is no index, and every send is accepted,
    a repeated body included. *)
Theorem dedup_follows_constructor_options :
  (∀ options,
     is_Some (Queue.new options).(index) ↔
     options.(QueueOptions.dedup) = Some true) ∧
  (∀ name requireAck visibilityTimeoutSecs maxReceives maxRetentionHours,
     let this := Queue.new (QueueOptions.mk name None requireAck
                              visibilityTimeoutSecs maxReceives
                              maxRetentionHours) in
     this.(index) = None ∧
     this.(config).(QueueConfig.dedup) = true ∧
     ∀ body dedupKey now later db,
       let first := Queue.send this body dedupKey now db in
       first.1 = Ok true ∧
       (Queue.send this body dedupKey later first.2.(env)).1 = Ok true).
Proof.
  split.
  - intros options. unfold Queue.new. cbn [index].
    destruct options.(QueueOptions.dedup) as [[]|]; simpl; split;
      (done || by intros [? ?]).
  - intros name ra vts mr mrh this. repeat split.
    all: subst this; by rewrite send_without_index.
Qed.




(** A send that reports a duplicate has written nothing. *)
Lemma send_false_writes_nothing (options : QueueOptions.t) (body : string)
    (dedupKey : option string) (now : Z) (db : Tables) :
  (Queue.send (Queue.new options) body dedupKey now db).1 = Ok false →
  Queue.send (Queue.new options) body dedupKey now db
  = (Ok false, mkState db (writing db)).
Proof.
  destruct (send_cases options body dedupKey now db)
    as [[e ->]|[->|[-> _]]]; done.
Qed.

(** C3, as amended: a successful send stores the new record under
    [lastLiveId () + 1] when the live partition is not empty and under 1
    when the message store is empty; the id is above every live id present
    at that moment. *)
Theorem send_assigns_next_id (options : QueueOptions.t) (body : string)
    (dedupKey : option string) (now : Z) (db : Tables) :
  (Queue.send (Queue.new options) body dedupKey now db).1 = Ok true →
  ∃ message,
    queue_data (Queue.send (Queue.new options) body dedupKey now db).2.(env)
    = <[message.(id) := message]> db.(queue_data) ∧
    message = mkMessage message.(id) now 0 0 body dedupKey ∧
    (∀ last, lastLiveId db.(queue_data) = Some last →
             message.(id) = last + 1) ∧
    (db.(queue_data) = ∅ → message.(id) = 1) ∧
    (∀ k, is_Some (db.(queue_data) !! k) → 0 ≤ k → k < message.(id)).
Proof.
  intros Hok.
  destruct (send_cases options body dedupKey now db)
    as [[e Hr]|[Hr|[_ Hr]]]; [by rewrite Hr in Hok..|].
  exists (fresh db.(queue_data) body dedupKey now).
  split; [done|]. split; [done|].
  assert (∀ last, lastLiveId db.(queue_data) = Some last →
                  nextId db.(queue_data) = last + 1) as Hlast.
  { intros last Hlast. unfold nextId.
    by rewrite (lastLiveId_goToLast _ _ Hlast). }
  repeat split.
  - done.
  - intros Hempty. cbn [fresh id]. unfold nextId.
    by rewrite (proj2 (goToLast_None _) Hempty).
  - intros k Hk Hlive. cbn [fresh id]. unfold nextId.
    destruct (Cursor.goToLast db.(queue_data)) as [top|] eqn:Htop.
    + apply goToLast_Some in Htop as [_ Hall]. specialize (Hall k Hk).
      simpl. lia.
    + apply goToLast_None in Htop. rewrite Htop, lookup_empty in Hk.
      by destruct Hk.
Qed.

Lemma send_assigns_next_id_witness :
  let db := (Queue.send (Queue.new plain_options) "a" None 1000 empty_db).2.(env) in
  ∃ message,
    queue_data (Queue.send (Queue.new plain_options) "b" None 2000 db).2.(env)
    = <[message.(id) := message]> db.(queue_data) ∧
    message = mkMessage message.(id) 2000 0 0 "b" None ∧
    (∀ last, lastLiveId db.(queue_data) = Some last →
             message.(id) = last + 1) ∧
    (db.(queue_data) = ∅ → message.(id) = 1) ∧
    (∀ k, is_Some (db.(queue_data) !! k) → 0 ≤ k → k < message.(id)).
Proof.
  intros db.
  apply (send_assigns_next_id plain_options "b" None 2000 db).
  reflexivity.
Defined.

(** C3 as stated fails: ids are reused.  After the only live message (id 1)
    is acknowledged, the next send stores a new message under id 1 again. *)
Lemma id_reused_after_ack_counterexample :
  let this := Queue.new plain_options in
  let db1 := (Queue.send this "a" None 1000 empty_db).2.(env) in
  let db2 := (Queue.ack this (mkMessage 1 1000 0 0 "a" None) db1).2.(env) in
  let db3 := (Queue.send this "b" None 3000 db2).2.(env) in
  queue_data db1 !! 1 = Some (mkMessage 1 1000 0 0 "a" None) ∧
  queue_data db2 !! 1 = None ∧
  queue_data db3 !! 1 = Some (mkMessage 1 3000 0 0 "b" None).
Proof. vm_compute. done. Qed.

(** ** receive *)

Lemma goToNext_Some {V} (s : gmap Z V) (key k : Z) :
  Cursor.goToNext s key = Some k ↔
  is_Some (s !! k) ∧ key < k ∧ ∀ j, is_Some (s !! j) → key < j → k ≤ j.
Proof.
  unfold Cursor.goToNext. rewrite goToRange_Some. split.
  - intros (Hk & Hlt & Hall). repeat split; [done|lia|].
    intros j Hj Hkj. apply Hall; [done|lia].
  - intros (Hk & Hlt & Hall). repeat split; [done|lia|].
    intros j Hj Hkj. apply Hall; [done|lia].
Qed.

Lemma goToNext_None {V} (s : gmap Z V) (key : Z) :
  Cursor.goToNext s key = None ↔ ∀ j, is_Some (s !! j) → j ≤ key.
Proof.
  unfold Cursor.goToNext. rewrite goToRange_None.
  split; intros Hall j Hj; specialize (Hall j Hj); lia.
Qed.

Section lease_facts.
Variables (c : QueueConfig.t) (now : Z).
Implicit Types (s : gmap Z Message) (m : Message) (k : Z).

Lemma dead_not_selectable m : dead c now m = true → selectable c now m = false.
Proof.
  unfold dead, selectable, expired.
  destruct (received m =? 0), (_ >? _), (exhausted c m); done.
Qed.

Lemma visit_alive s m : dead c now m = false → visit c now s m = s.
Proof. unfold visit. by intros ->. Qed.

Lemma visit_other s m k :
  k ≠ m.(id) → k ≠ - m.(id) → visit c now s m !! k = s !! k.
Proof.
  intros Hid Hneg. unfold visit. destruct (dead c now m); [|done].
  by rewrite lookup_insert_ne, lookup_delete_ne.
Qed.

Lemma visit_dead_id s m :
  dead c now m = true → m.(id) ≠ 0 → visit c now s m !! m.(id) = None.
Proof.
  intros Hdead Hid. unfold visit. rewrite Hdead.
  rewrite lookup_insert_ne by lia. apply lookup_delete_eq.
Qed.

Lemma visit_dead_neg s m :
  dead c now m = true →
  visit c now s m !! (- m.(id)) = Some (setId m (- m.(id))).
Proof.
  intros Hdead. unfold visit. rewrite Hdead. apply lookup_insert_eq.
Qed.

Lemma visit_stored_under_id s m :
  stored_under_id s → stored_under_id (visit c now s m).
Proof.
  intros Hwf. unfold visit. destruct (dead c now m); [|done].
  apply map_Forall_insert_2; [done|]. by apply map_Forall_delete.
Qed.

Lemma ahead_visit s m :
  0 < m.(id) → ahead (visit c now s m) m.(id) = ahead s m.(id).
Proof.
  intros Hpos. unfold ahead. apply set_eq. intros k.
  rewrite !elem_of_filter, !elem_of_dom.
  split; intros [Hlt Hk]; (split; [done|]).
  - rewrite visit_other in Hk by lia. done.
  - rewrite visit_other by lia. done.
Qed.
End lease_facts.

Lemma ahead_next (s : gmap Z Message) (key k : Z) :
  Cursor.goToNext s key = Some k → (size (ahead s k) < size (ahead s key))%nat.
Proof.
  rewrite goToNext_Some. intros (Hk & Hlt & _).
  apply subset_size. unfold ahead. apply strict_spec_alt. split.
  - intros j. rewrite !elem_of_filter. intros [? ?]. split; [lia|done].
  - intros Heq.
    assert (k ∈ filter (λ j, key < j) (dom s)) as Hin
      by by rewrite elem_of_filter, elem_of_dom.
    rewrite <- Heq, elem_of_filter in Hin. lia.
Qed.

Lemma ahead_size (s : gmap Z Message) (key : Z) :
  (size (ahead s key) ≤ size s)%nat.
Proof.
  rewrite <- (size_dom s). apply subseteq_size. unfold ahead.
  intros j. rewrite elem_of_filter. by intros [_ ?].
Qed.

(** Finishes a pass of the loop once the message store of the pass is
    known: seek the next key and read the record there. *)
Ltac loop_tail :=
  unfold Table.cursor, Cursor.getCurrentString, writing;
  cbn [own txn data dbi_read queue_table queue_data];
  match goal with
  | |- context [Cursor.goToNext ?s ?key] =>
      destruct (Cursor.goToNext s key) as [k|];
      cbn [falsy_key key_or_zero];
      [ destruct (k =? 0); [reflexivity|];
        destruct (s !! k); reflexivity
      | reflexivity ]
  end.

Section scan_facts.
Variables (c : QueueConfig.t) (now : Z).
Implicit Types (s : gmap Z Message) (m message : Message) (k key : Z).

(** The pass at [key] ends the scan: no key follows. *)
Lemma scanned_last s key message :
  stored_under_id s → 0 < key → s !! key = Some message →
  Cursor.goToNext (visit c now s message) key = None →
  scanned c now key s (visit c now s message) ReturnNull.
Proof.
  intros Hwf Hpos Hkey Hnext.
  assert (message.(id) = key) as Hid by exact (Hwf _ _ Hkey).
  rewrite goToNext_None in Hnext.
  split; [by apply visit_stored_under_id|]. split; [|split].
  - intros k. destruct (dead c now message) eqn:Hdead.
    + destruct (decide (k = message.(id) ∨ k = - message.(id))) as [Hk|Hk].
      * right. exists message. rewrite Hid in *.
        repeat split; try done; try lia.
        -- rewrite <- Hid. apply visit_dead_id; [done|lia].
        -- rewrite <- Hid. by apply visit_dead_neg.
      * left. apply visit_other; tauto.
    + left. by rewrite visit_alive.
  - intros k m [=].
  - intros k m Hle Hk Hdead Hbefore.
    destruct (decide (k = key)) as [->|Hne].
    + rewrite Hkey in Hk. injection Hk as ->. rewrite <- Hid.
      split; [apply visit_dead_id; [done|lia]|].
      split; [by apply visit_dead_neg|]. by intros m' [=].
    + assert (is_Some (visit c now s message !! k)) as Hin
        by (rewrite visit_other by lia; eauto).
      specialize (Hnext k Hin). lia.
Qed.

(** The pass at [key] finds a selectable record: the loop is left with
    the record at the next key. *)
Lemma scanned_select s key message k' m' :
  stored_under_id s → 0 < key → s !! key = Some message →
  selectable c now message = true →
  Cursor.goToNext s key = Some k' → s !! k' = Some m' →
  scanned c now key s s (Selected k' m').
Proof.
  intros Hwf Hpos Hkey Hsel Hnext Hk'.
  apply goToNext_Some in Hnext as (_ & Hlt & Hmin).
  split; [done|]. split; [|split].
  - intros k. by left.
  - intros k m [= <- <-]. done.
  - intros k m Hle Hk Hdead Hbefore. exfalso.
    destruct (decide (k = key)) as [->|Hne].
    + rewrite Hkey in Hk. injection Hk as ->.
      apply dead_not_selectable in Hdead. congruence.
    + specialize (Hbefore key message ltac:(lia) Hkey). congruence.
Qed.

(** The pass at [key] goes on to [k2]. *)
Lemma scanned_step s key message k2 s' exit :
  stored_under_id s → 0 < key → s !! key = Some message →
  selectable c now message = false →
  Cursor.goToNext (visit c now s message) key = Some k2 →
  scanned c now k2 (visit c now s message) s' exit →
  scanned c now key s s' exit.
Proof.
  intros Hwf Hpos Hkey Hsel Hnext (Hwf' & Hframe & Hexit & Hreach).
  assert (message.(id) = key) as Hid by exact (Hwf _ _ Hkey).
  apply goToNext_Some in Hnext as (Hk2 & Hlt & Hmin).
  assert (∀ k, key < k → visit c now s message !! k = s !! k) as Hafter
    by (intros k Hk; apply visit_other; lia).
  assert (s' !! key = visit c now s message !! key) as Hat_key.
  { destruct (Hframe key) as [Heq|(m & _ & Hle & _ & _ & _ & Hor)];
      [done|]. lia. }
  assert (s' !! (- key) = visit c now s message !! (- key)) as Hat_neg.
  { destruct (Hframe (- key)) as [Heq|(m & _ & Hle & _ & _ & _ & Hor)];
      [done|]. lia. }
  split; [done|]. split; [|split].
  - intros k. destruct (Hframe k) as [Heq|(m & Hdead & Hle & Hm & Hgone & Hneg & Hor)].
    + destruct (dead c now message) eqn:Hdead.
      * destruct (decide (k = message.(id) ∨ k = - message.(id))) as [Hk|Hk].
        -- right. exists message. rewrite Hid in *.
           repeat split; try done; try lia.
           ++ rewrite Hat_key, <- Hid. apply visit_dead_id; [done|lia].
           ++ rewrite Hat_neg, <- Hid. by apply visit_dead_neg.
        -- left. rewrite Heq. apply visit_other; tauto.
      * left. by rewrite Heq, visit_alive.
    + right. exists m. rewrite Hafter in Hm by lia.
      repeat split; try done. lia.
  - intros k m ->. destruct (Hexit k m eq_refl) as (Hk & Hm & Hm').
    rewrite Hafter in Hm by lia. repeat split; [lia|done..].
  - intros k m Hle Hk Hdead Hbefore.
    destruct (decide (k = key)) as [->|Hne].
    + rewrite Hkey in Hk. injection Hk as ->.
      rewrite Hat_key, Hat_neg, <- Hid.
      split; [apply visit_dead_id; [done|lia]|].
      split; [by apply visit_dead_neg|].
      intros m' ->. destruct (Hexit _ m' eq_refl) as (Hk & _). lia.
    + assert (k2 ≤ k) as Hk2k.
      { apply Hmin; [|lia]. rewrite Hafter by lia. eauto. }
      apply Hreach; [done| by rewrite Hafter by lia |done|].
      intros j mj Hj Hmj. rewrite Hafter in Hmj by lia.
      apply (Hbefore j mj); [lia|done].
Qed.
End scan_facts.

Section receive_facts.
Variable options : QueueOptions.t.
Variable now : Z.
Let this := Queue.new options.
Let c := this.(config).
Implicit Types (db : Tables) (s : gmap Z Message) (ix : gmap string Z)
  (key : Z) (message : Message).

(** One pass of the loop, on an open write transaction. *)
Lemma receive_loop_step fuel key message db s ix :
  Queue.receive_loop this now (S fuel) key message
    (mkState db (writing (mkTables s ix)))
  = let s1 := visit c now s message in
    let st1 := mkState db (writing (mkTables s1 ix)) in
    match Cursor.goToNext s1 key with
    | None => (Ok ReturnNull, loop_end db ix s1 ReturnNull)
    | Some k =>
        if k =? 0 then (Ok ReturnNull, loop_end db ix s1 ReturnNull)
        else
          match s1 !! k with
          | None => (Throw "TypeError: Cannot read properties of null", st1)
          | Some m' =>
              if selectable c now message then (Ok (Selected k m'), st1)
              else Queue.receive_loop this now fuel k m' st1
          end
    end.
Proof.
  cbn [Queue.receive_loop]. subst c this.
  unfold visit, dead, selectable, expired, exhausted, Queue.new.
  cbn [config queue index]. unfold bind, ret, get.
  destruct (received message =? 0); cbn.
  - loop_tail.
  - destruct (_ >? _); cbn; [destruct (_ >=? _); cbn|].
    + rewrite del_queue. cbn. rewrite putString_queue. cbn. loop_tail.
    + loop_tail.
    + loop_tail.
Qed.

(** The loop terminates within its bound and does what [scanned] says. *)
Lemma receive_loop_scans fuel : ∀ key message db s ix,
  stored_under_id s → 0 < key → s !! key = Some message →
  (size (ahead s key) < fuel)%nat →
  ∃ exit s',
    Queue.receive_loop this now fuel key message
      (mkState db (writing (mkTables s ix)))
    = (Ok exit, loop_end db ix s' exit) ∧
    scanned c now key s s' exit.
Proof.
  induction fuel as [|fuel IH]; intros key message db s ix Hwf Hpos Hkey Hfuel;
    [lia|].
  assert (message.(id) = key) as Hid by exact (Hwf _ _ Hkey).
  rewrite receive_loop_step. cbv zeta.
  destruct (Cursor.goToNext (visit c now s message) key) as [k2|] eqn:Hnext.
  - pose proof Hnext as Hn.
    apply goToNext_Some in Hn as ([m2 Hm2] & Hlt & _).
    rewrite (proj2 (Z.eqb_neq k2 0)) by lia. rewrite Hm2.
    destruct (selectable c now message) eqn:Hsel.
    + assert (dead c now message = false) as Halive.
      { destruct (dead c now message) eqn:Hdead; [|done].
        apply dead_not_selectable in Hdead. congruence. }
      rewrite visit_alive in * by done.
      exists (Selected k2 m2), s. split; [reflexivity|].
      by eapply scanned_select.
    + destruct (IH k2 m2 db (visit c now s message) ix)
        as (exit & s' & Heq & Hscan).
      * by apply visit_stored_under_id.
      * lia.
      * done.
      * pose proof (ahead_next _ _ _ Hnext) as Hless.
        rewrite <- Hid in Hless. rewrite ahead_visit in Hless by lia.
        rewrite Hid in Hless. lia.
      * exists exit, s'. split; [done|]. by eapply scanned_step.
  - exists ReturnNull, (visit c now s message). split; [reflexivity|].
    by apply scanned_last.
Qed.

(** [receive] with [requireAck] on: nothing at or above key zero, the
    scan runs out, or the scan selects a record. *)
Lemma receive_with_ack db :
  c.(QueueConfig.requireAck) = true →
  stored_under_id db.(queue_data) →
  let s := db.(queue_data) in
  let ix := db.(index_data) in
  (falsy_key (Cursor.goToRange s 0) = true ∧
   Queue.receive this now db
   = (Ok None, mkState db (Transaction.close (writing db)))) ∨
  ∃ key message exit s',
    Cursor.goToRange s 0 = Some key ∧ 0 < key ∧ s !! key = Some message ∧
    scanned c now key s s' exit ∧
    Queue.receive this now db
    = match exit with
      | ReturnNull => (Ok None, loop_end db ix s' ReturnNull)
      | Selected k m =>
          let t := mkTables (<[k := deliver m now]> s') ix in
          (Ok (Some (deliver m now)),
           mkState t (Transaction.close (writing t)))
      end.
Proof.
  destruct db as [s ix]. cbn [queue_data index_data]. intros Hack Hwf.
  assert (falsy_key (Cursor.goToRange s 0) = true →
          Queue.receive this now (mkTables s ix)
          = (Ok None, mkState (mkTables s ix)
                        (Transaction.close (writing (mkTables s ix)))))
    as Hnone.
  { intros Hfalsy. unfold Queue.receive.
    cbn [queue this Queue.new]. rewrite writing_begin, cursor_writing.
    cbn [queue_data]. rewrite Hfalsy. reflexivity. }
  destruct (Cursor.goToRange s 0) as [key|] eqn:Hfirst; [|left; auto].
  destruct (decide (key = 0)) as [->|Hfalsy]; [left; auto|].
  right.
  pose proof Hfirst as Hf.
  apply goToRange_Some in Hf as ([message Hkey] & Hle & _).
  destruct (receive_loop_scans (S (size s)) key message (mkTables s ix) s ix)
    as (exit & s' & Hloop & Hscan); [exact Hwf|lia|exact Hkey| |].
  { pose proof (ahead_size s key). lia. }
  exists key, message, exit, s'.
  split; [done|]. split; [lia|]. split; [done|]. split; [done|].
  unfold Queue.receive.
  cbn [queue this Queue.new]. rewrite writing_begin, cursor_writing.
  cbn [queue_data]. rewrite Hfirst. cbn [falsy_key key_or_zero].
  rewrite (proj2 (Z.eqb_neq key 0)) by done.
  unfold Cursor.getCurrentString. rewrite Hkey.
  fold this c. rewrite Hack. cbn [negb].
  unfold bind at 1. rewrite Hloop.
  destruct exit as [|k m]; [reflexivity|].
  destruct Hscan as (Hwf' & _ & Hexit & _).
  destruct (Hexit k m eq_refl) as (_ & _ & Hm).
  assert (m.(id) = k) as Hid by exact (Hwf' _ _ Hm).
  unfold bind, ret. cbn [loop_end deliver id]. rewrite Hid.
  rewrite putString_queue, commit_writing. reflexivity.
Qed.

(** [receive] with [requireAck] off: the first record at or above key
    zero is deleted and returned, whatever its lease state. *)
Lemma receive_auto_ack db :
  c.(QueueConfig.requireAck) = false →
  let s := db.(queue_data) in
  (falsy_key (Cursor.goToRange s 0) = true ∧
   Queue.receive this now db
   = (Ok None, mkState db (Transaction.close (writing db)))) ∨
  ∃ key message,
    Cursor.goToRange s 0 = Some key ∧ 0 < key ∧ s !! key = Some message ∧
    ((∃ e, Queue.receive this now db = (Throw e, mkState db (writing db))) ∨
     ∃ ix', Queue.receive this now db
            = let t := mkTables (delete message.(id) s) ix' in
              (Ok (Some (deliver message now)),
               mkState t (Transaction.close (writing t)))).
Proof.
  destruct db as [s ix]. cbn [queue_data index_data]. intros Hack.
  assert (falsy_key (Cursor.goToRange s 0) = true →
          Queue.receive this now (mkTables s ix)
          = (Ok None, mkState (mkTables s ix)
                        (Transaction.close (writing (mkTables s ix)))))
    as Hnone.
  { intros Hfalsy. unfold Queue.receive.
    cbn [queue this Queue.new]. rewrite writing_begin, cursor_writing.
    cbn [queue_data]. rewrite Hfalsy. reflexivity. }
  destruct (Cursor.goToRange s 0) as [key|] eqn:Hfirst; [|left; auto].
  destruct (decide (key = 0)) as [->|Hfalsy]; [left; auto|].
  right.
  pose proof Hfirst as Hf.
  apply goToRange_Some in Hf as ([message Hkey] & Hle & _).
  exists key, message.
  split; [done|]. split; [lia|]. split; [done|].
  unfold Queue.receive.
  cbn [queue this Queue.new]. rewrite writing_begin, cursor_writing.
  cbn [queue_data]. rewrite Hfirst. cbn [falsy_key key_or_zero].
  rewrite (proj2 (Z.eqb_neq key 0)) by done.
  unfold Cursor.getCurrentString. rewrite Hkey.
  fold this c. rewrite Hack. cbn [negb].
  subst this. cbn [index Queue.new].
  destruct (default false options.(QueueOptions.dedup)).
  - destruct (key_fits (or_else message.(dedupKey) message.(body))) eqn:Hfit.
    + right. eexists. unfold bind, ret.
      rewrite del_index by done. rewrite del_queue, commit_writing.
      reflexivity.
    + left.
      destruct (del_index_too_long (mkTables s ix) (mkTables s ix) _ Hfit)
        as (e & _ & Hthrow).
      exists e. unfold bind. by rewrite Hthrow.
  - right. exists ix. unfold bind, ret.
    rewrite del_queue, commit_writing. reflexivity.
Qed.
End receive_facts.

(** ** The store invariant *)

Lemma ack_cases (options : QueueOptions.t) (message : Message) (db : Tables) :
  let r := Queue.ack (Queue.new options) message db in
  r.2.(env) = db ∨
  ∃ ix', r = let t := mkTables (delete message.(id) db.(queue_data)) ix' in
             (Ok tt, mkState t (Transaction.close (writing t))).
Proof.
  destruct db as [s ix]. cbn [queue_data]. unfold Queue.ack, Queue.new.
  cbn [queue index]. rewrite writing_begin. unfold bind.
  rewrite del_queue. cbn [queue_data index_data].
  destruct (default false options.(QueueOptions.dedup)).
  - destruct (key_fits (or_else message.(dedupKey) message.(body))) eqn:Hfit.
    + right. eexists. rewrite del_index by done.
      rewrite commit_writing. reflexivity.
    + left.
      destruct (del_index_too_long (mkTables s ix)
                  (mkTables (delete message.(id) s) ix) _ Hfit)
        as (e & _ & Hthrow).
      by rewrite Hthrow.
  - right. exists ix. unfold ret. rewrite commit_writing. reflexivity.
Qed.

(** Every operation keeps each record under the key its id names, so the
    stores a queue can reach all do. *)
Lemma reachable_stored_under_id (db : Tables) :
  reachable db → stored_under_id db.(queue_data).
Proof.
  induction 1 as [|options body dedupKey now db _ IH|options now db _ IH
                  |options message db _ IH].
  - apply map_Forall_empty.
  - destruct (send_cases options body dedupKey now db)
      as [[e ->]|[->|[_ ->]]]; [done..|].
    by apply map_Forall_insert_2.
  - destruct ((Queue.new options).(config).(QueueConfig.requireAck)) eqn:Hack.
    + destruct (receive_with_ack options now db Hack IH)
        as [[_ ->]|(key & m0 & exit & s' & _ & _ & _ & Hscan & ->)]; [done|].
      destruct Hscan as (Hwf' & _ & Hexit & _).
      destruct exit as [|k m]; [done|].
      destruct (Hexit k m eq_refl) as (_ & _ & Hm).
      cbn [snd env queue_data]. apply map_Forall_insert_2; [|done].
      exact (Hwf' _ _ Hm).
    + destruct (receive_auto_ack options now db Hack)
        as [[_ ->]|(key & m0 & _ & _ & _ & [[e ->]|[ix' ->]])]; [done..|].
      by apply map_Forall_delete.
  - destruct (ack_cases options message db) as [->|[ix' ->]]; [done|].
    by apply map_Forall_delete.
Qed.

Lemma store_of_stored_under_id (l : list Message) :
  stored_under_id (store_of l).
Proof.
  unfold store_of. induction l as [|m l IH]; simpl.
  - apply map_Forall_empty.
  - by apply map_Forall_insert_2.
Qed.

(** C1 (code defect): after a single [send] on an empty queue, [receive]
    returns null and leaves the message untouched; with two messages
    waiting it returns the second, not the first selectable one. *)
Theorem receive_skips_first_selectable :
  let this := Queue.new plain_options in
  let db1 := (Queue.send this "x" None 1000 empty_db).2.(env) in
  let db2 := (Queue.send this "y" None 1001 db1).2.(env) in
  queue_data db1 !! 1 = Some (mkMessage 1 1000 0 0 "x" None) ∧
  (Queue.receive this 2000 db1).1 = Ok None ∧
  (Queue.receive this 2000 db1).2.(env) = db1 ∧
  (Queue.receive this 2000 db2).1
  = Ok (Some (mkMessage 2 1001 2000 1 "y" None)).
Proof. vm_compute. done. Qed.

(** C7: whatever [receive] writes under a negative key is the record that
    was live under the opposite key, which is deleted there; only the
    stored id differs, by its sign. *)
Theorem dead_letter_keeps_record (options : QueueOptions.t) (now : Z)
    (db : Tables) (live : Z) :
  stored_under_id db.(queue_data) →
  0 < live →
  let after := (Queue.receive (Queue.new options) now db).2.(env) in
  queue_data after !! (- live) ≠ db.(queue_data) !! (- live) →
  ∃ m, db.(queue_data) !! live = Some m ∧
       m.(id) = live ∧
       queue_data after !! live = None ∧
       queue_data after !! (- live)
       = Some (mkMessage (- live) m.(enqueued) m.(received) m.(numReceives)
                         m.(body) m.(dedupKey)).
Proof.
  intros Hwf Hlive after Hchanged. subst after.
  set (c := (Queue.new options).(config)).
  assert (∀ key s', 0 < key →
            scanned c now key db.(queue_data) s' ReturnNull ∨
            (∃ k m, scanned c now key db.(queue_data) s' (Selected k m)) →
            s' !! (- live) ≠ db.(queue_data) !! (- live) →
            ∃ m, db.(queue_data) !! live = Some m ∧ m.(id) = live ∧
                 s' !! live = None ∧
                 s' !! (- live) = Some (setId m (- live))) as Hmoved.
  { intros key s' Hkey Hscan Hne.
    assert (∀ k, s' !! k = db.(queue_data) !! k ∨
              ∃ m, dead c now m = true ∧ key ≤ m.(id) ∧
                   db.(queue_data) !! m.(id) = Some m ∧ s' !! m.(id) = None ∧
                   s' !! (- m.(id)) = Some (setId m (- m.(id))) ∧
                   (k = m.(id) ∨ k = - m.(id))) as Hframe
      by (destruct Hscan as [(_ & H & _)|(k & m & _ & H & _)]; exact H).
    destruct (Hframe (- live)) as [|(m & _ & Hle & Hm & Hgone & Hneg & Hor)];
      [done|].
    assert (m.(id) = live) as Hid by lia. rewrite Hid in *. eauto. }
  destruct (c.(QueueConfig.requireAck)) eqn:Hack.
  - destruct (receive_with_ack options now db Hack Hwf)
      as [[_ Hr]|(key & message & exit & s' & _ & Hkey & _ & Hscan & Hr)];
      rewrite Hr in *; [done|].
    destruct exit as [|k m'].
    + cbn [snd env loop_end queue_data] in *.
      destruct (Hmoved key s' Hkey (or_introl Hscan) Hchanged)
        as (m & ? & ? & ? & ?). by exists m.
    + cbn [snd env queue_data] in *.
      destruct Hscan as (Hwf' & Hframe & Hexit & Hreach).
      destruct (Hexit k m' eq_refl) as (Hk & _ & Hm').
      rewrite lookup_insert_ne in Hchanged by lia.
      destruct (Hmoved key s' Hkey) as (m & ? & ? & Hgone & ?);
        [right; by exists k, m'|done|].
      exists m. rewrite !lookup_insert_ne by (try lia; congruence). done.
  - destruct (receive_auto_ack options now db Hack)
      as [[_ Hr]|(key & message & _ & Hkey & Hat & [[e Hr]|[ix' Hr]])];
      rewrite Hr in *; [done..|].
    cbn [snd env queue_data] in Hchanged.
    rewrite (Hwf _ _ Hat : message.(id) = key) in Hchanged.
    rewrite lookup_delete_ne in Hchanged by lia. done.
Qed.

Lemma worn_db_reachable : reachable worn_db.
Proof.
  unfold worn_db. cbv zeta.
  do 3 apply reachable_receive. apply reachable_ack.
  do 3 apply reachable_receive. do 3 apply reachable_send.
  apply reachable_empty.
Qed.

Lemma worn_db_contents :
  map_to_list worn_db.(queue_data)
  ≡ₚ [ (2, mkMessage 2 1001 4000 3 "b" None);
       (3, mkMessage 3 1002 7000 3 "c" None) ].
Proof. vm_compute. apply perm_swap. Qed.

Lemma dead_letter_keeps_record_witness :
  let after := (Queue.receive (Queue.new plain_options) 500000 worn_db).2.(env) in
  ∃ m, worn_db.(queue_data) !! 2 = Some m ∧
       m.(id) = 2 ∧
       queue_data after !! 2 = None ∧
       queue_data after !! (- 2)
       = Some (mkMessage (- 2) m.(enqueued) m.(received) m.(numReceives)
                         m.(body) m.(dedupKey)).
Proof.
  intros after.
  apply (dead_letter_keeps_record plain_options 500000 worn_db 2).
  - apply reachable_stored_under_id, worn_db_reachable.
  - lia.
  - vm_compute. discriminate.
Defined.

(** A message [receive] returns was stored, live, under the id it carries. *)
Lemma receive_returns_live_record (options : QueueOptions.t) (now : Z)
    (db : Tables) (m' : Message) :
  stored_under_id db.(queue_data) →
  (Queue.receive (Queue.new options) now db).1 = Ok (Some m') →
  0 < m'.(id) ∧ is_Some (db.(queue_data) !! m'.(id)).
Proof.
  intros Hwf Hret.
  destruct ((Queue.new options).(config).(QueueConfig.requireAck)) eqn:Hack.
  - destruct (receive_with_ack options now db Hack Hwf)
      as [[_ Hr]|(key & message & exit & s' & _ & Hkey & _ & Hscan & Hr)];
      rewrite Hr in Hret; [done|].
    destruct exit as [|k m]; [done|].
    injection Hret as <-.
    destruct Hscan as (Hwf' & _ & Hexit & _).
    destruct (Hexit k m eq_refl) as (Hk & Hm & Hm').
    cbn [deliver id]. rewrite (Hwf' _ _ Hm' : m.(id) = k).
    split; [lia|eauto].
  - destruct (receive_auto_ack options now db Hack)
      as [[_ Hr]|(key & message & _ & Hkey & Hat & [[e Hr]|[ix' Hr]])];
      rewrite Hr in Hret; [done..|].
    injection Hret as <-.
    cbn [deliver id]. rewrite (Hwf _ _ Hat : message.(id) = key).
    split; [lia|eauto].
Qed.

(** C6, as amended: on a queue with [requireAck] on and no record under
    key 0, a live message that is expired and exhausted, with no selectable
    live message before it, is moved by [receive] from its id to the negated
    id and is not the message returned; and no [receive] returns a message
    whose id is not in the live partition. *)
Theorem exhausted_message_dead_lettered (options : QueueOptions.t) (now : Z)
    (db : Tables) (live : Z) (m : Message) :
  let this := Queue.new options in
  this.(config).(QueueConfig.requireAck) = true →
  stored_under_id db.(queue_data) →
  db.(queue_data) !! 0 = None →
  0 < live →
  db.(queue_data) !! live = Some m →
  dead this.(config) now m = true →
  (∀ j mj, 0 < j < live → db.(queue_data) !! j = Some mj →
           selectable this.(config) now mj = false) →
  (∃ result, (Queue.receive this now db).1 = Ok result ∧
             ∀ m', result = Some m' → m'.(id) ≠ live) ∧
  queue_data (Queue.receive this now db).2.(env) !! live = None ∧
  queue_data (Queue.receive this now db).2.(env) !! (- live)
  = Some (setId m (- live)) ∧
  (∀ later db2 m',
     stored_under_id db2.(queue_data) →
     db2.(queue_data) !! live = None →
     (Queue.receive this later db2).1 = Ok (Some m') →
     m'.(id) ≠ live).
Proof.
  intros this Hack Hwf Hzero Hpos Hm Hdead Hbefore.
  assert (∀ later db2 m',
            stored_under_id db2.(queue_data) →
            db2.(queue_data) !! live = None →
            (Queue.receive this later db2).1 = Ok (Some m') →
            m'.(id) ≠ live) as Hlater.
  { intros later db2 m' Hwf2 Hgone Hret Heq.
    destruct (receive_returns_live_record options later db2 m' Hwf2 Hret)
      as [_ [x Hx]]. rewrite Heq in Hx. congruence. }
  destruct (receive_with_ack options now db Hack Hwf)
    as [[Hfalsy Hr]|(key & message & exit & s' & Hfirst & Hkey & _ & Hscan & Hr)].
  { exfalso.
    destruct (Cursor.goToRange db.(queue_data) 0) as [k|] eqn:Hfirst.
    - cbn [falsy_key] in Hfalsy. apply Z.eqb_eq in Hfalsy as ->.
      apply goToRange_Some in Hfirst as ([x Hx] & _). congruence.
    - rewrite goToRange_None in Hfirst.
      specialize (Hfirst live ltac:(eauto)). lia. }
  fold this in Hr. rewrite Hr.
  assert (key ≤ live) as Hle.
  { apply goToRange_Some in Hfirst as (_ & _ & Hmin).
    apply Hmin; [eauto|lia]. }
  destruct Hscan as (Hwf' & Hframe & Hexit & Hreach).
  destruct (Hreach live m Hle Hm Hdead) as (Hgone & Hneg & Hnot).
  { intros j mj Hj. apply Hbefore. lia. }
  destruct exit as [|k m2].
  - cbn [fst snd env loop_end queue_data].
    split; [exists None; split; [done|]; by intros m' [=]|].
    by repeat split.
  - destruct (Hexit k m2 eq_refl) as (Hk & _ & Hm2).
    assert (k ≠ live) as Hne by (intros ->; by apply (Hnot m2)).
    cbn [fst snd env queue_data].
    split.
    { eexists. split; [done|]. intros m' [= <-]. cbn [deliver id].
      by rewrite (Hwf' _ _ Hm2 : m2.(id) = k). }
    rewrite !lookup_insert_ne by lia. by repeat split.
Qed.

Lemma exhausted_message_dead_lettered_witness :
  let this := Queue.new plain_options in
  let worn := mkMessage 3 1002 7000 3 "c" None in
  (∃ result, (Queue.receive this 500000 worn_db).1 = Ok result ∧
             ∀ m', result = Some m' → m'.(id) ≠ 3) ∧
  queue_data (Queue.receive this 500000 worn_db).2.(env) !! 3 = None ∧
  queue_data (Queue.receive this 500000 worn_db).2.(env) !! (- 3)
  = Some (setId worn (- 3)) ∧
  (∀ later db2 m',
     stored_under_id db2.(queue_data) →
     db2.(queue_data) !! 3 = None →
     (Queue.receive this later db2).1 = Ok (Some m') →
     m'.(id) ≠ 3).
Proof.
  intros this worn.
  apply (exhausted_message_dead_lettered plain_options 500000 worn_db 3 worn).
  - reflexivity.
  - apply reachable_stored_under_id, worn_db_reachable.
  - vm_compute. reflexivity.
  - lia.
  - vm_compute. reflexivity.
  - reflexivity.
  - intros j mj Hj Hat. assert (j = 1 ∨ j = 2) as [-> | ->] by lia.
    + vm_compute in Hat. discriminate Hat.
    + vm_compute in Hat. injection Hat as <-. reflexivity.
Defined.

(** C6 as stated fails.  With the default configuration, after two sends
    and three deliveries message 2 is live, exhausted and expired, yet the
    next [receive] returns it and leaves it live; and on a queue with
    [requireAck] off the exhausted, expired message 2 of [worn_db] is
    returned and deleted with no record left under the negated id. *)
Lemma exhausted_message_returned_counterexample :
  let this := Queue.new plain_options in
  let db1 := (Queue.send this "a" None 1000 empty_db).2.(env) in
  let db2 := (Queue.send this "b" None 1001 db1).2.(env) in
  let db3 := (Queue.receive this 2000 db2).2.(env) in
  let db4 := (Queue.receive this 400000 db3).2.(env) in
  let db5 := (Queue.receive this 800000 db4).2.(env) in
  let worn := mkMessage 2 1001 800000 3 "b" None in
  (queue_data db5 !! 2 = Some worn ∧
   dead this.(config) 1200000 worn = true ∧
   (Queue.receive this 1200000 db5).1
   = Ok (Some (mkMessage 2 1001 1200000 4 "b" None)) ∧
   queue_data (Queue.receive this 1200000 db5).2.(env) !! (- 2) = None ∧
   queue_data (Queue.receive this 1200000 db5).2.(env) !! 2
   = Some (mkMessage 2 1001 1200000 4 "b" None)) ∧
  let auto := Queue.new auto_ack_options in
  let spent := mkMessage 2 1001 4000 3 "b" None in
  queue_data worn_db !! 2 = Some spent ∧
  dead auto.(config) 500000 spent = true ∧
  (Queue.receive auto 500000 worn_db).1
  = Ok (Some (mkMessage 2 1001 500000 4 "b" None)) ∧
  queue_data (Queue.receive auto 500000 worn_db).2.(env) !! (- 2) = None.
Proof. vm_compute. done. Qed.

(** * Further properties of the code *)

(** ** transaction.ts *)

Section transaction_more.
Context {K V : Type} `{Countable K, !Key K, !Value V}.
Implicit Types (table : Table K V) (key : K) (value : V) (this : Transaction).

Lemma assertWrite_read_only key this :
  key_fits key = true →
  this.(isClosed) = false → this.(isReset) = false →
  this.(isWriteable) = false →
  Transaction.assertWrite key this = (Throw ReadOnlyViolation, this).
Proof.
  intros Hfit Hc Hr Hw. unfold Transaction.assertWrite, bind.
  rewrite assertRead_open by done. simpl. by rewrite Hw.
Qed.

Lemma get_after_put table key value this :
  lawful table →
  Txn_get (Txn_put this.(txn) table key value) table key = Some value.
Proof.
  intros Hlaw. unfold Txn_get, Txn_put. cbn [data].
  rewrite Hlaw. apply lookup_insert_eq.
Qed.

Lemma get_after_del table key this :
  lawful table →
  Txn_get (Txn_del this.(txn) table key) table key = None.
Proof.
  intros Hlaw. unfold Txn_get, Txn_del. cbn [data].
  rewrite Hlaw. apply lookup_delete_eq.
Qed.

(** A read of an absent key returns null, whatever the accessor. *)
Lemma data_reads_absent table key this :
  key_fits key = true →
  this.(isClosed) = false → this.(isReset) = false →
  Txn_get this.(txn) table key = None →
  Forall (λ get, get this = (Ok None, this)) (data_reads table key).
Proof.
  intros Hfit Hc Hr Hget.
  repeat apply Forall_cons_2; try apply Forall_nil_2.
  all: unfold Transaction.getString, Transaction.getBinary,
         Transaction.getNumber, Transaction.getBoolean,
         Transaction.getStringUnsafe, Transaction.getBinaryUnsafe, bind.
  all: rewrite assertRead_open by done; unfold get, result, Txn_read.
  all: by rewrite Hget.
Qed.

(** A read through the accessors of the type a value was written with
    returns the value. *)
Lemma reads_as_stored table key value this :
  key_fits key = true →
  this.(isClosed) = false → this.(isReset) = false →
  Txn_get this.(txn) table key = Some value →
  Forall (λ get, get this = (Ok (Some value), this))
         (reads_as (stored_as value) table key).
Proof.
  intros Hfit Hc Hr Hget. unfold reads_as.
  destruct (stored_as value) eqn:Htype.
  all: repeat apply Forall_cons_2; try apply Forall_nil_2.
  all: unfold Transaction.getString, Transaction.getBinary,
         Transaction.getNumber, Transaction.getBoolean,
         Transaction.getStringUnsafe, Transaction.getBinaryUnsafe, bind.
  all: rewrite assertRead_open by done; unfold get, result, Txn_read.
  all: rewrite Hget, Htype; by rewrite decide_True.
Qed.
End transaction_more.

(** X1: inside an open write transaction a value put under a key with the
    accessor of its type is what the reads of that type return, and once
    the key is deleted again every read returns nothing; the reads leave
    the transaction as the write left it. *)
Theorem staged_write_read_back {K V : Type}
    `{Countable K, !Key K, !Value V}
    (table : Table K V) (key : K) (value : V) (this : Transaction) :
  lawful table →
  key_fits key = true →
  this.(isClosed) = false → this.(isReset) = false →
  this.(isWriteable) = true →
  ∃ wrote gone,
    put_as (stored_as value) table key value this = (Ok tt, wrote) ∧
    Forall (λ get, get wrote = (Ok (Some value), wrote))
           (reads_as (stored_as value) table key) ∧
    Transaction.del table key wrote = (Ok tt, gone) ∧
    Forall (λ get, get gone = (Ok None, gone)) (data_reads table key).
Proof.
  intros Hlaw Hfit Hc Hr Hw.
  set (wrote := mkTransaction (Txn_put this.(txn) table key value)
                  this.(isWriteable) this.(isClosed) this.(isReset)).
  set (gone := mkTransaction (Txn_del wrote.(txn) table key)
                 this.(isWriteable) this.(isClosed) this.(isReset)).
  exists wrote, gone. split_and!.
  - unfold put_as, Transaction.putString, Transaction.putBinary,
      Transaction.putNumber, Transaction.putBoolean, bind.
    destruct (stored_as value); by rewrite assertWrite_open.
  - apply reads_as_stored; [done..|]. by apply get_after_put.
  - unfold Transaction.del, bind. by rewrite assertWrite_open.
  - apply data_reads_absent; [done..|].
    by apply (get_after_del table key wrote).
Qed.

Lemma index_table_lawful : lawful index_table.
Proof. intros m t. reflexivity. Qed.

Lemma queue_table_lawful : lawful queue_table.
Proof. intros m t. reflexivity. Qed.

Lemma staged_write_read_back_witness :
  let this := Database.beginWrite empty_db in
  ∃ wrote gone,
    Transaction.putNumber index_table "k" 7 this = (Ok tt, wrote) ∧
    Forall (λ get, get wrote = (Ok (Some 7), wrote))
           [ Transaction.getNumber index_table "k" ] ∧
    Transaction.del index_table "k" wrote = (Ok tt, gone) ∧
    Forall (λ get, get gone = (Ok None, gone)) (data_reads index_table "k").
Proof.
  intros this.
  exact (staged_write_read_back index_table "k" 7 this
           index_table_lawful eq_refl eq_refl eq_refl eq_refl).
Defined.

(** X2: a key over the size limit is refused by every data operation with
    the key-size error, in whatever state the transaction is, and the
    transaction is not touched. *)
Theorem oversize_key_always_rejected {K V : Type}
    `{Countable K, !Key K, !Value V}
    (table : Table K V) (key : K) (value : V) (this : Transaction) :
  key_fits key = false →
  ∃ e, KeySizeExceeded e ∧
       Forall (λ op, op this = (Throw e, this)) (data_reads table key) ∧
       Forall (λ op, op this = (Throw e, this)) (data_writes table key value).
Proof.
  intros Hfit.
  destruct (assertRead_too_long key this Hfit) as (e & He & Hthrow).
  exists e. split; [done|].
  split; repeat apply Forall_cons_2; try apply Forall_nil_2.
  all: unfold Transaction.getString, Transaction.getBinary,
         Transaction.getNumber, Transaction.getBoolean,
         Transaction.getStringUnsafe, Transaction.getBinaryUnsafe,
         Transaction.putString, Transaction.putBinary,
         Transaction.putNumber, Transaction.putBoolean,
         Transaction.del, Transaction.assertWrite, bind.
  all: by rewrite Hthrow.
Qed.

Lemma oversize_key_always_rejected_witness :
  let committed :=
    (Transaction.commit (Database.beginWrite empty_db) empty_db).1 in
  ∃ e, KeySizeExceeded e ∧
       Forall (λ op, op committed = (Throw e, committed))
              (data_reads index_table long_key) ∧
       Forall (λ op, op committed = (Throw e, committed))
              (data_writes index_table long_key 7).
Proof.
  intros committed.
  apply (oversize_key_always_rejected index_table long_key 7 committed).
  reflexivity.
Defined.

(** X3: the limits [assertKeySize] enforces: a string key passes up to 255
    code units, a buffer key up to 511 bytes, and a number key always. *)
Theorem key_size_limits :
  (∀ key : string,
     key_fits key = true ↔ (String.length key ≤ 255)%nat) ∧
  (∀ key : list Byte.byte,
     key_fits key = true ↔ (List.length key ≤ 511)%nat) ∧
  (∀ key : Z, key_fits key = true).
Proof.
  split; [|split].
  - intros key. rewrite key_fits_string. unfold MAX_KEY_SIZE. lia.
  - intros key. unfold key_fits, assertKeySize. simpl.
    unfold MAX_KEY_SIZE.
    destruct (Z.gtb_spec (Z.of_nat (List.length key)) 511);
      simpl; split; intros; (done || lia).
  - intros key. reflexivity.
Qed.

Lemma data_operations_closed {K V : Type} `{Countable K, !Key K, !Value V}
    (table : Table K V) (key : K) (value : V) (this : Transaction) :
  key_fits key = true →
  this.(isClosed) = true ∨ this.(isReset) = true →
  Forall (λ op, op this = (Throw TransactionStateError, this))
         (data_reads table key) ∧
  Forall (λ op, op this = (Throw TransactionStateError, this))
         (data_writes table key value).
Proof.
  intros Hfit Hstate.
  split; repeat apply Forall_cons_2; try apply Forall_nil_2.
  all: unfold Transaction.getString, Transaction.getBinary,
         Transaction.getNumber, Transaction.getBoolean,
         Transaction.getStringUnsafe, Transaction.getBinaryUnsafe,
         Transaction.putString, Transaction.putBinary,
         Transaction.putNumber, Transaction.putBoolean,
         Transaction.del, Transaction.assertWrite, bind.
  all: by rewrite (assertRead_closed key this Hfit Hstate).
Qed.

(** X4: on an open read-only transaction [reset] blocks every data
    operation; [renew] then returns and the transaction is open again, not
    reset and still read-only, so that the state check passes; once the
    transaction was committed or aborted, a call of [renew] does not revive
    it. *)
Theorem reset_blocks_until_renew {K V : Type}
    `{Countable K, !Key K, !Value V}
    (table : Table K V) (key : K) (value : V) (this : Transaction)
    (env : Tables) :
  key_fits key = true →
  this.(txn).(readOnly) = true → this.(isWriteable) = false →
  this.(isClosed) = false → this.(isReset) = false →
  let parked := Transaction.reset this in
  (Forall (λ op, op parked = (Throw TransactionStateError, parked))
          (data_reads table key) ∧
   Forall (λ op, op parked = (Throw TransactionStateError, parked))
          (data_writes table key value)) ∧
  (let renewed := Transaction.renew env parked in
   renewed.1 = Ok tt ∧
   renewed.2.(isReset) = false ∧ renewed.2.(isClosed) = false ∧
   renewed.2.(isWriteable) = false ∧
   Transaction.assertRead key renewed.2 = (Ok tt, renewed.2) ∧
   Forall (λ op, op renewed.2 = (Throw ReadOnlyViolation, renewed.2))
          (data_writes table key value)) ∧
  (∀ finished,
     finished = (Transaction.commit this env).1 ∨
     finished = (Transaction.abort this env).1 →
     let renewed := (Transaction.renew env finished).2 in
     Forall (λ op, op renewed = (Throw TransactionStateError, renewed))
            (data_reads table key) ∧
     Forall (λ op, op renewed = (Throw TransactionStateError, renewed))
            (data_writes table key value)).
Proof.
  intros Hfit Hro Hw Hc Hr parked. split; [|split].
  - apply data_operations_closed; [done|]. by right.
  - subst parked. destruct this as [t w c r]. simpl in *. subst.
    unfold Transaction.renew, Transaction.reset, bind, get, ret, modify.
    cbn [txn isClosed isWriteable isReset]. rewrite Hro.
    cbn [andb negb fst snd isClosed isWriteable isReset].
    split_and!; [done..| |].
    + by apply assertRead_open.
    + repeat apply Forall_cons_2; try apply Forall_nil_2.
      all: unfold Transaction.putString, Transaction.putBinary,
             Transaction.putNumber, Transaction.putBoolean,
             Transaction.del, bind.
      all: by rewrite assertWrite_read_only.
  - intros finished Hfin renewed.
    apply data_operations_closed; [done|]. left. subst renewed.
    destruct Hfin as [-> | ->].
    all: unfold Transaction.renew, Transaction.commit, Transaction.abort,
           Transaction.close, bind, get, ret, throw, modify.
    all: cbn [fst txn isClosed isWriteable isReset].
    all: by rewrite andb_false_r.
Qed.

Lemma reset_blocks_until_renew_witness :
  let this := Database.beginRead empty_db in
  let parked := Transaction.reset this in
  (Forall (λ op, op parked = (Throw TransactionStateError, parked))
          (data_reads index_table "k") ∧
   Forall (λ op, op parked = (Throw TransactionStateError, parked))
          (data_writes index_table "k" 7)) ∧
  (let renewed := Transaction.renew empty_db parked in
   renewed.1 = Ok tt ∧
   renewed.2.(isReset) = false ∧ renewed.2.(isClosed) = false ∧
   renewed.2.(isWriteable) = false ∧
   Transaction.assertRead ("k" : string) renewed.2 = (Ok tt, renewed.2) ∧
   Forall (λ op, op renewed.2 = (Throw ReadOnlyViolation, renewed.2))
          (data_writes index_table "k" 7)) ∧
  (∀ finished,
     finished = (Transaction.commit this empty_db).1 ∨
     finished = (Transaction.abort this empty_db).1 →
     let renewed := (Transaction.renew empty_db finished).2 in
     Forall (λ op, op renewed = (Throw TransactionStateError, renewed))
            (data_reads index_table "k") ∧
     Forall (λ op, op renewed = (Throw TransactionStateError, renewed))
            (data_writes index_table "k" 7)).
Proof.
  intros this.
  apply (reset_blocks_until_renew index_table "k" 7 this empty_db);
    reflexivity.
Defined.

(** ** table.ts *)

Section table_more.
Context {K V : Type} `{Countable K, !Key K, !Value V}.
Implicit Types (table : Table K V) (key : K) (value : V) (st : State).

(** A read through a table without a transaction: a temporary read-only
    transaction over the environment, dropped afterwards. *)
Lemma table_reads_omitted_absent table key st :
  key_fits key = true →
  dbi_read table st.(env) !! key = None →
  Forall (λ op, op st = (Ok None, st)) (table_reads table key Omitted).
Proof.
  intros Hfit Habsent. destruct st as [db own0].
  repeat apply Forall_cons_2; try apply Forall_nil_2.
  all: unfold Table.getString, Table.getStringUnsafe, Table.getBinary,
         Table.getBinaryUnsafe, Table.getNumber, Table.getBoolean,
         Table.useTransaction, Transaction.getString,
         Transaction.getStringUnsafe, Transaction.getBinary,
         Transaction.getBinaryUnsafe, Transaction.getNumber,
         Transaction.getBoolean, bind.
  all: rewrite assertRead_open by done.
  all: unfold get, result, Txn_read, Txn_get.
  all: cbn [env Transaction.new txn beginTxn data] in *.
  all: by rewrite Habsent.
Qed.

Lemma table_reads_as_omitted table key value st :
  key_fits key = true →
  dbi_read table st.(env) !! key = Some value →
  Forall (λ op, op st = (Ok (Some value), st))
         (table_reads_as (stored_as value) table key Omitted).
Proof.
  intros Hfit Hat. destruct st as [db own0]. unfold table_reads_as.
  destruct (stored_as value) eqn:Htype.
  all: repeat apply Forall_cons_2; try apply Forall_nil_2.
  all: unfold Table.getString, Table.getStringUnsafe, Table.getBinary,
         Table.getBinaryUnsafe, Table.getNumber, Table.getBoolean,
         Table.useTransaction, Transaction.getString,
         Transaction.getStringUnsafe, Transaction.getBinary,
         Transaction.getBinaryUnsafe, Transaction.getNumber,
         Transaction.getBoolean, bind.
  all: rewrite assertRead_open by done.
  all: unfold get, result, Txn_read, Txn_get.
  all: cbn [env Transaction.new txn beginTxn data] in *.
  all: rewrite Hat, Htype; by rewrite decide_True.
Qed.

(** A write through a table without a transaction: a temporary write
    transaction, committed afterwards. *)
Lemma table_puts_omitted table key value st :
  key_fits key = true →
  Forall (λ op, op st
            = (Ok tt,
               mkState (dbi_write table
                          (<[key := value]> (dbi_read table st.(env)))
                          st.(env)) st.(own)))
         [ Table.putString table key value Omitted;
           Table.putBinary table key value Omitted;
           Table.putNumber table key value Omitted;
           Table.putBoolean table key value Omitted ].
Proof.
  intros Hfit. destruct st as [db own0].
  repeat apply Forall_cons_2; try apply Forall_nil_2.
  all: unfold Table.putString, Table.putBinary, Table.putNumber,
         Table.putBoolean, Table.useTransaction, Transaction.putString,
         Transaction.putBinary, Transaction.putNumber,
         Transaction.putBoolean, bind.
  all: rewrite assertWrite_open by done; reflexivity.
Qed.

Lemma table_del_omitted table key st :
  key_fits key = true →
  Table.del table key Omitted st
  = (Ok tt, mkState (dbi_write table (delete key (dbi_read table st.(env)))
                               st.(env)) st.(own)).
Proof.
  intros Hfit. destruct st as [db own0].
  unfold Table.del, Table.useTransaction, Transaction.del, bind.
  rewrite assertWrite_open by done. reflexivity.
Qed.
End table_more.

(** X5: for a caller that holds no open write transaction, a write through
    a table without a transaction is committed at once: the reads of the
    value's type without a transaction then return the value, and once the
    key is deleted the same way every read returns nothing; the caller's
    own transaction is not involved. *)
Theorem auto_commit_round_trip {K V : Type}
    `{Countable K, !Key K, !Value V}
    (table : Table K V) (key : K) (value : V) (st : State) :
  lawful table →
  key_fits key = true →
  no_open_writer st.(own) →
  ∃ st1 st2,
    table_put_as (stored_as value) table key value Omitted st = (Ok tt, st1) ∧
    st1.(own) = st.(own) ∧
    Forall (λ get, get st1 = (Ok (Some value), st1))
           (table_reads_as (stored_as value) table key Omitted) ∧
    Table.del table key Omitted st1 = (Ok tt, st2) ∧
    st2.(own) = st.(own) ∧
    Forall (λ get, get st2 = (Ok None, st2)) (table_reads table key Omitted).
Proof.
  intros Hlaw Hfit _.
  assert (table_put_as (stored_as value) table key value Omitted st
          = (Ok tt,
             mkState (dbi_write table
                        (<[key := value]> (dbi_read table st.(env)))
                        st.(env)) st.(own))) as Hput.
  { pose proof (table_puts_omitted table key value st Hfit) as Hputs.
    apply Forall_cons_1 in Hputs as [Hs Hputs].
    apply Forall_cons_1 in Hputs as [Hb Hputs].
    apply Forall_cons_1 in Hputs as [Hn Hputs].
    apply Forall_cons_1 in Hputs as [Hbo _].
    unfold table_put_as. by destruct (stored_as value). }
  do 2 eexists.
  split; [exact Hput|]. split; [done|]. split.
  { apply table_reads_as_omitted; [done|].
    cbn [env]. by rewrite Hlaw, lookup_insert_eq. }
  split; [by apply table_del_omitted|]. split; [done|].
  apply table_reads_omitted_absent; [done|].
  cbn [env]. by rewrite Hlaw, lookup_delete_eq.
Qed.

Lemma auto_commit_round_trip_witness :
  let st :=
    mkState empty_db
            (Transaction.commit (Database.beginWrite empty_db) empty_db).1 in
  ∃ st1 st2,
    Table.putNumber index_table "k" 7 Omitted st = (Ok tt, st1) ∧
    st1.(own) = st.(own) ∧
    Forall (λ get, get st1 = (Ok (Some 7), st1))
           [ Table.getNumber index_table "k" Omitted ] ∧
    Table.del index_table "k" Omitted st1 = (Ok tt, st2) ∧
    st2.(own) = st.(own) ∧
    Forall (λ get, get st2 = (Ok None, st2))
           (table_reads index_table "k" Omitted).
Proof.
  intros st.
  exact (auto_commit_round_trip index_table "k" 7 st
           index_table_lawful eq_refl (or_introl eq_refl)).
Defined.

(** X6: a table operation that is given the caller's transaction never
    commits or aborts it: the environment is as before, and so are the
    closed, reset and writeable flags of the transaction. *)
Theorem given_transaction_left_to_caller {K V : Type}
    `{Countable K, !Key K, !Value V}
    (table : Table K V) (key : K) (value : V) (st : State) :
  let kept (after : State) :=
    after.(env) = st.(env) ∧
    after.(own).(isClosed) = st.(own).(isClosed) ∧
    after.(own).(isReset) = st.(own).(isReset) ∧
    after.(own).(isWriteable) = st.(own).(isWriteable) in
  Forall (λ op, kept (op st).2) (table_reads table key Given) ∧
  Forall (λ op, kept (op st).2) (table_writes table key value Given).
Proof.
  intros kept. subst kept. destruct st as [db [t w c r]].
  split; repeat apply Forall_cons_2; try apply Forall_nil_2.
  all: unfold Table.getString, Table.getStringUnsafe, Table.getBinary,
         Table.getBinaryUnsafe, Table.getNumber, Table.getBoolean,
         Table.putString, Table.putBinary, Table.putNumber,
         Table.putBoolean, Table.del, Table.useTransaction,
         Transaction.getString, Transaction.getStringUnsafe,
         Transaction.getBinary, Transaction.getBinaryUnsafe,
         Transaction.getNumber, Transaction.getBoolean,
         Transaction.putString, Transaction.putBinary,
         Transaction.putNumber, Transaction.putBoolean, Transaction.del,
         Transaction.assertWrite, Transaction.assertRead, assertKeySize,
         Transaction.with_txn, bind, ret, throw, get, modify.
  all: cbn [own env isClosed isReset isWriteable txn].
  all: destruct (key_shape key) as [n|n|]; try destruct (_ >? _);
         destruct r, c, w; done.
Qed.

(** X7: a table operation without a transaction whose key is over the size
    limit throws the key-size error: a read whatever the caller holds, a
    write for a caller that holds no open write transaction; the temporary
    transaction is dropped and neither the environment nor the caller's
    state changes. *)
Theorem omitted_failure_changes_nothing {K V : Type}
    `{Countable K, !Key K, !Value V}
    (table : Table K V) (key : K) (value : V) (st : State) :
  key_fits key = false →
  ∃ e, KeySizeExceeded e ∧
       Forall (λ op, op st = (Throw e, st)) (table_reads table key Omitted) ∧
       (no_open_writer st.(own) →
        Forall (λ op, op st = (Throw e, st))
               (table_writes table key value Omitted)).
Proof.
  intros Hfit. destruct st as [db own0].
  destruct (assertKeySize_too_long key Hfit) as (e & He & Hthrow).
  exists e. split; [done|].
  split; [|intros _]; repeat apply Forall_cons_2; try apply Forall_nil_2.
  all: unfold Table.getString, Table.getStringUnsafe, Table.getBinary,
         Table.getBinaryUnsafe, Table.getNumber, Table.getBoolean,
         Table.putString, Table.putBinary, Table.putNumber,
         Table.putBoolean, Table.del, Table.useTransaction,
         Transaction.getString, Transaction.getStringUnsafe,
         Transaction.getBinary, Transaction.getBinaryUnsafe,
         Transaction.getNumber, Transaction.getBoolean,
         Transaction.putString, Transaction.putBinary,
         Transaction.putNumber, Transaction.putBoolean, Transaction.del,
         Transaction.assertWrite, Transaction.assertRead, bind.
  all: by rewrite Hthrow.
Qed.

Lemma omitted_failure_changes_nothing_witness :
  let st :=
    mkState empty_db
            (Transaction.commit (Database.beginWrite empty_db) empty_db).1 in
  ∃ e, KeySizeExceeded e ∧
       Forall (λ op, op st = (Throw e, st))
              (table_reads index_table long_key Omitted) ∧
       Forall (λ op, op st = (Throw e, st))
              (table_writes index_table long_key 7 Omitted).
Proof.
  intros st.
  destruct (omitted_failure_changes_nothing index_table long_key 7 st)
    as (e & He & Hreads & Hwrites); [reflexivity|].
  exists e. split; [exact He|]. split; [exact Hreads|].
  apply Hwrites. left. reflexivity.
Defined.

Section finish_facts.
Context {K V : Type} `{Countable K, !Key K, !Value V}.
Implicit Types (table : Table K V) (key : K) (value : V).

Lemma getString_given_closed table key (e : Tables) (own0 : Transaction) :
  key_fits key = true →
  own0.(isClosed) = true →
  Table.getString table key Given (mkState e own0)
  = (Throw TransactionStateError, mkState e own0).
Proof.
  intros Hfit Hc.
  unfold Table.getString, Table.useTransaction, Transaction.getString, bind.
  cbn [own env]. rewrite assertRead_closed by auto. reflexivity.
Qed.

Lemma table_puts_given table key value (db t : Tables) :
  key_fits key = true →
  Forall (λ put, put (mkState db (writing t))
            = (Ok tt,
               mkState db
                 (writing (dbi_write table
                             (<[key := value]> (dbi_read table t)) t))))
         [ Table.putString table key value Given;
           Table.putBinary table key value Given;
           Table.putNumber table key value Given;
           Table.putBoolean table key value Given ].
Proof.
  intros Hfit.
  repeat apply Forall_cons_2; try apply Forall_nil_2.
  all: unfold Table.putString, Table.putBinary, Table.putNumber,
         Table.putBoolean, Table.useTransaction, Transaction.putString,
         Transaction.putBinary, Transaction.putNumber,
         Transaction.putBoolean, bind.
  all: cbn [own env]; rewrite assertWrite_open by done; reflexivity.
Qed.
End finish_facts.

(** X8: what is written inside the caller's write transaction reaches the
    environment only with [commit], and [abort] leaves the environment as
    it was; after either, the transaction is closed and a read given it
    throws the transaction-state error. *)
Theorem commit_publishes_abort_discards {K V : Type}
    `{Countable K, !Key K, !Value V}
    (table : Table K V) (key : K) (value : V) (db t : Tables) :
  lawful table →
  key_fits key = true →
  let st := mkState db (writing t) in
  Forall (λ put,
            (put st).2.(env) = db ∧
            (∃ st', (put ;;; commit) st = (Ok tt, st') ∧
                    dbi_read table st'.(env) !! key = Some value ∧
                    Table.getString table key Given st'
                    = (Throw TransactionStateError, st')) ∧
            (∃ st', (put ;;; abort) st = (Ok tt, st') ∧
                    st'.(env) = db ∧
                    Table.getString table key Given st'
                    = (Throw TransactionStateError, st')))
         [ Table.putString table key value Given;
           Table.putBinary table key value Given;
           Table.putNumber table key value Given;
           Table.putBoolean table key value Given ].
Proof.
  intros Hlaw Hfit st. subst st.
  eapply Forall_impl; [by apply table_puts_given|].
  intros put Hput. cbn beta in Hput.
  split; [by rewrite Hput|]. split.
  - eexists. unfold bind. rewrite Hput, commit_writing.
    split; [reflexivity|]. split.
    + cbn [env]. by rewrite Hlaw, lookup_insert_eq.
    + by apply getString_given_closed.
  - eexists. unfold bind. rewrite Hput.
    split; [reflexivity|]. split; [reflexivity|].
    by apply getString_given_closed.
Qed.

Lemma commit_publishes_abort_discards_witness :
  let st := mkState empty_db (writing empty_db) in
  Forall (λ put,
            (put st).2.(env) = empty_db ∧
            (∃ st', (put ;;; commit) st = (Ok tt, st') ∧
                    dbi_read index_table st'.(env) !! "k" = Some 7 ∧
                    Table.getString index_table "k" Given st'
                    = (Throw TransactionStateError, st')) ∧
            (∃ st', (put ;;; abort) st = (Ok tt, st') ∧
                    st'.(env) = empty_db ∧
                    Table.getString index_table "k" Given st'
                    = (Throw TransactionStateError, st')))
         [ Table.putString index_table "k" 7 Given;
           Table.putBinary index_table "k" 7 Given;
           Table.putNumber index_table "k" 7 Given;
           Table.putBoolean index_table "k" 7 Given ].
Proof.
  apply (commit_publishes_abort_discards index_table "k" 7 empty_db empty_db);
    [apply index_table_lawful | reflexivity].
Defined.

Lemma hasKey_omitted {K V : Type} `{Countable K, !Key K, !TruthyKey K}
    (table : Table K V) (key : K) (st : State) :
  Table.hasKey table key Omitted st
  = (Ok (present (dbi_read table st.(env) !! key) && key_truthy key), st).
Proof.
  destruct st as [db own0].
  unfold Table.hasKey, Table.useTransaction, Cursor.goToKey, Table.cursor.
  cbn [env own Transaction.new txn data beginTxn isClosed isWriteable].
  by destruct (dbi_read table db !! key).
Qed.

(** X9: [hasKey] without a transaction changes nothing and makes no
    key-size check; it answers whether the key is in the environment and is
    truthy.  So on the message table [hasKey (0)] is false whatever is
    stored, although a record under key 0 is read back by [getString]. *)
Theorem hasKey_answers {K V : Type} `{Countable K, !Key K, !TruthyKey K}
    (table : Table K V) (key : K) (st : State) :
  Table.hasKey table key Omitted st
  = (Ok (present (dbi_read table st.(env) !! key) && key_truthy key), st) ∧
  ∀ (message : Message) (db : Tables) (own0 : Transaction),
    let held :=
      mkState (dbi_write queue_table (<[0 := message]> db.(queue_data)) db)
              own0 in
    Table.getString queue_table 0 Omitted held = (Ok (Some message), held) ∧
    Table.hasKey queue_table 0 Omitted held = (Ok false, held).
Proof.
  split; [apply hasKey_omitted|].
  intros message db own0 held. split.
  - assert (dbi_read queue_table held.(env) !! 0 = Some message) as Hat.
    { subst held. cbn [env dbi_read dbi_write queue_table queue_data].
      by rewrite lookup_insert_eq. }
    pose proof (table_reads_as_omitted queue_table 0 message held eq_refl Hat)
      as Hreads.
    by apply Forall_cons_1 in Hreads as [-> _].
  - rewrite (hasKey_omitted queue_table 0 held).
    by rewrite andb_false_r.
Qed.

(** ** queue.ts: send and ack *)

Lemma nextId_is_free (s : gmap Z Message) : s !! nextId s = None.
Proof.
  destruct (s !! nextId s) as [m|] eqn:Hat; [|done]. exfalso.
  unfold nextId in Hat.
  destruct (Cursor.goToLast s) as [top|] eqn:Htop; cbn [key_or_zero] in Hat.
  - apply goToLast_Some in Htop as [_ Hall].
    specialize (Hall (top + 1) ltac:(eauto)). lia.
  - apply goToLast_None in Htop. by rewrite Htop, lookup_empty in Hat.
Qed.

(** [ack] when the dedup key, if one is used, passes the key-size check. *)
Lemma ack_commits (options : QueueOptions.t) (message : Message) (db : Tables) :
  default false options.(QueueOptions.dedup) = false ∨
  key_fits (or_else message.(dedupKey) message.(body)) = true →
  Queue.ack (Queue.new options) message db
  = let t := mkTables
               (delete message.(id) db.(queue_data))
               (if default false options.(QueueOptions.dedup)
                then delete (or_else message.(dedupKey) message.(body))
                            db.(index_data)
                else db.(index_data)) in
    (Ok tt, mkState t (Transaction.close (writing t))).
Proof.
  intros Hok. destruct db as [s ix]. unfold Queue.ack, Queue.new.
  cbn [queue index queue_data index_data]. rewrite writing_begin.
  unfold bind. rewrite del_queue. cbn [queue_data index_data].
  destruct (default false options.(QueueOptions.dedup)).
  - destruct Hok as [|Hfit]; [done|].
    rewrite del_index by done. rewrite commit_writing. reflexivity.
  - unfold ret. rewrite commit_writing. reflexivity.
Qed.

(** X10: a successful [send] adds exactly one record, under a key that was
    free, and overwrites nothing; with dedup on it also enters the body in
    the index with the send time; its transaction is committed. *)
Theorem send_adds_one_record (options : QueueOptions.t) (body : string)
    (dedupKey : option string) (now : Z) (db : Tables) :
  (Queue.send (Queue.new options) body dedupKey now db).1 = Ok true →
  let after := (Queue.send (Queue.new options) body dedupKey now db).2 in
  let new := fresh db.(queue_data) body dedupKey now in
  db.(queue_data) !! new.(id) = None ∧
  after.(env)
  = mkTables (<[new.(id) := new]> db.(queue_data))
             (if default false options.(QueueOptions.dedup)
              then <[body := now]> db.(index_data)
              else db.(index_data)) ∧
  (∀ k, k ≠ new.(id) →
        queue_data after.(env) !! k = db.(queue_data) !! k) ∧
  after.(own) = Transaction.close (writing after.(env)).
Proof.
  intros Hok after new. subst after new. cbn [fresh id].
  split; [apply nextId_is_free|].
  destruct (default false options.(QueueOptions.dedup)) eqn:Hdedup.
  - destruct (truthy dedupKey) eqn:Hkey.
    { by rewrite send_explicit_key in Hok. }
    destruct (key_fits body) eqn:Hfit.
    + destruct (db.(index_data) !! body) as [ts|] eqn:Hix.
      * rewrite send_duplicate in Hok by eauto. done.
      * rewrite send_first_time by done. cbn [snd env own queue_data].
        repeat split. intros k Hk. by rewrite lookup_insert_ne.
    + destruct (send_too_long options body dedupKey now db)
        as (e & _ & Hr); [done..|]. by rewrite Hr in Hok.
  - rewrite send_without_index by done. cbn [snd env own queue_data].
    repeat split. intros k Hk. by rewrite lookup_insert_ne.
Qed.

Lemma send_adds_one_record_witness :
  let after := (Queue.send (Queue.new dedup_options) "b" None 2000 worn_db).2 in
  let new := fresh worn_db.(queue_data) "b" None 2000 in
  worn_db.(queue_data) !! new.(id) = None ∧
  after.(env)
  = mkTables (<[new.(id) := new]> worn_db.(queue_data))
             (if default false dedup_options.(QueueOptions.dedup)
              then <[("b" : string) := 2000]> worn_db.(index_data)
              else worn_db.(index_data)) ∧
  (∀ k, k ≠ new.(id) →
        queue_data after.(env) !! k = worn_db.(queue_data) !! k) ∧
  after.(own) = Transaction.close (writing after.(env)).
Proof.
  apply (send_adds_one_record dedup_options "b" None 2000 worn_db).
  vm_compute. reflexivity.
Defined.

(** X11: what [send] itself decides.  On a dedup-enabled queue a supplied
    dedup key is refused with the explicit-key rejection, and a body over
    the size limit, sent without one, with the key-size error; a queue
    without dedup accepts every send, and a dedup-enabled queue a body that
    passes the key-size check and is not in the index.  A send that does
    not return true has written nothing and leaves its transaction open. *)
Theorem send_outcomes (options : QueueOptions.t) (body : string)
    (dedupKey : option string) (now : Z) (db : Tables) :
  let r := Queue.send (Queue.new options) body dedupKey now db in
  let dedup := default false options.(QueueOptions.dedup) in
  (dedup = true → truthy dedupKey = true →
     r = (Throw DedupUnsupported, mkState db (writing db))) ∧
  (dedup = true → truthy dedupKey = false → key_fits body = false →
     ∃ e, KeySizeExceeded e ∧ r = (Throw e, mkState db (writing db))) ∧
  (dedup = false ∨
   (truthy dedupKey = false ∧ key_fits body = true ∧
    db.(index_data) !! body = None) →
     r.1 = Ok true) ∧
  (r.1 = Ok true ∨ r = (r.1, mkState db (writing db))).
Proof.
  intros r dedup. subst r dedup. split_and!.
  - intros Hon Hkey. by apply send_explicit_key.
  - intros Hon Hkey Hfit. by apply send_too_long.
  - intros [Hoff | (Hkey & Hfit & Hnew)].
    + by rewrite send_without_index.
    + destruct (default false options.(QueueOptions.dedup)) eqn:Hdedup.
      * by rewrite send_first_time.
      * by rewrite send_without_index.
  - destruct (send_cases options body dedupKey now db)
      as [[e Hr]|[Hr|[Hr _]]]; [right; by rewrite Hr..|by left].
Qed.

Lemma send_outcomes_witness :
  Queue.send (Queue.new dedup_options) "a" (Some "k") 1000 empty_db
  = (Throw DedupUnsupported, mkState empty_db (writing empty_db)) ∧
  (∃ e, KeySizeExceeded e ∧
        Queue.send (Queue.new dedup_options) long_key None 1000 empty_db
        = (Throw e, mkState empty_db (writing empty_db))) ∧
  (Queue.send (Queue.new dedup_options) "a" None 1000 empty_db).1 = Ok true.
Proof.
  split; [|split].
  - destruct (send_outcomes dedup_options "a" (Some "k") 1000 empty_db)
      as (Hkey & _). apply Hkey; reflexivity.
  - destruct (send_outcomes dedup_options long_key None 1000 empty_db)
      as (_ & Hlong & _). apply Hlong; reflexivity.
  - destruct (send_outcomes dedup_options "a" None 1000 empty_db)
      as (_ & _ & Hnew & _). apply Hnew. right. repeat split; reflexivity.
Defined.

(** X12: acknowledging the message a successful [send] has just stored
    undoes the send: the environment is again what it was before, message
    store and dedup index alike. *)
Theorem send_then_ack_restores (options : QueueOptions.t) (body : string)
    (dedupKey : option string) (now : Z) (db : Tables) :
  (Queue.send (Queue.new options) body dedupKey now db).1 = Ok true →
  Queue.ack (Queue.new options) (fresh db.(queue_data) body dedupKey now)
            (Queue.send (Queue.new options) body dedupKey now db).2.(env)
  = (Ok tt, mkState db (Transaction.close (writing db))).
Proof.
  intros Hok. destruct db as [s ix]. cbn [queue_data] in *.
  pose proof (nextId_is_free s) as Hfree.
  destruct (default false options.(QueueOptions.dedup)) eqn:Hdedup.
  - destruct (truthy dedupKey) eqn:Hkey.
    { by rewrite send_explicit_key in Hok. }
    destruct (key_fits body) eqn:Hfit.
    + destruct (ix !! body) as [ts|] eqn:Hix.
      * rewrite send_duplicate in Hok by eauto. done.
      * rewrite send_first_time by done. cbn [snd env queue_data index_data].
        rewrite ack_commits by (right; simpl; by rewrite or_else_falsy).
        rewrite Hdedup. simpl. rewrite or_else_falsy by done.
        by rewrite !delete_insert_id.
    + destruct (send_too_long options body dedupKey now (mkTables s ix))
        as (e & _ & Hr); [done..|]. by rewrite Hr in Hok.
  - rewrite send_without_index by done. cbn [snd env queue_data index_data].
    rewrite ack_commits by by left.
    rewrite Hdedup. simpl. by rewrite delete_insert_id.
Qed.

Lemma send_then_ack_restores_witness :
  Queue.ack (Queue.new dedup_options) (fresh worn_db.(queue_data) "b" None 2000)
            (Queue.send (Queue.new dedup_options) "b" None 2000 worn_db).2.(env)
  = (Ok tt, mkState worn_db (Transaction.close (writing worn_db))).
Proof.
  apply (send_then_ack_restores dedup_options "b" None 2000 worn_db).
  vm_compute. reflexivity.
Defined.

(** X13: on a dedup-enabled queue, acknowledging a stored message that
    carries no dedup key of its own releases its body: the next [send] of
    that body is accepted. *)
Theorem ack_releases_body (options : QueueOptions.t) (message : Message)
    (later : Z) (db : Tables) :
  options.(QueueOptions.dedup) = Some true →
  truthy message.(dedupKey) = false →
  key_fits message.(body) = true →
  is_Some (db.(queue_data) !! message.(id)) →
  is_Some (db.(index_data) !! message.(body)) →
  (Queue.ack (Queue.new options) message db).1 = Ok tt ∧
  (Queue.send (Queue.new options) message.(body) None later
              (Queue.ack (Queue.new options) message db).2.(env)).1
  = Ok true.
Proof.
  intros Hon Hkey Hfit _ _.
  assert (default false options.(QueueOptions.dedup) = true) as Hdedup
    by by rewrite Hon.
  rewrite ack_commits by (right; by rewrite or_else_falsy).
  rewrite Hdedup, or_else_falsy by done. cbn [fst snd env]. split; [done|].
  rewrite send_first_time; [done..|].
  cbn [index_data]. apply lookup_delete_eq.
Qed.

Lemma ack_releases_body_witness :
  let this := Queue.new dedup_options in
  let message := mkMessage 1 1000 0 0 "a" None in
  let db := (Queue.send this "a" None 1000 empty_db).2.(env) in
  (Queue.ack this message db).1 = Ok tt ∧
  (Queue.send this "a" None 2000 (Queue.ack this message db).2.(env)).1
  = Ok true.
Proof.
  intros this message db.
  apply (ack_releases_body dedup_options message 2000 db);
    try reflexivity; vm_compute; eauto.
Defined.

(** X14: on a dedup-enabled queue, [ack] of a message whose dedup key (its
    own, else its body) is over the size limit throws the key-size error
    after the delete from the message store was staged: nothing is
    committed, and the transaction is left open holding that delete. *)
Theorem ack_oversize_key_throws (options : QueueOptions.t) (message : Message)
    (db : Tables) :
  options.(QueueOptions.dedup) = Some true →
  is_Some (db.(queue_data) !! message.(id)) →
  key_fits (or_else message.(dedupKey) message.(body)) = false →
  ∃ e, KeySizeExceeded e ∧
       Queue.ack (Queue.new options) message db
       = (Throw e,
          mkState db (writing (mkTables (delete message.(id) db.(queue_data))
                                        db.(index_data)))).
Proof.
  intros Hon _ Hfit.
  destruct (del_index_too_long db
              (mkTables (delete message.(id) db.(queue_data)) db.(index_data))
              _ Hfit) as (e & He & Hthrow).
  exists e. split; [done|].
  unfold Queue.ack, Queue.new. cbn [queue index]. rewrite Hon.
  cbn [default from_option Datatypes.id]. rewrite writing_begin. unfold bind.
  rewrite del_queue, Hthrow. reflexivity.
Qed.

Lemma ack_oversize_key_throws_witness :
  let message := mkMessage 2 1001 4000 3 long_key None in
  ∃ e, KeySizeExceeded e ∧
       Queue.ack (Queue.new dedup_options) message worn_db
       = (Throw e,
          mkState worn_db
            (writing (mkTables (delete 2 worn_db.(queue_data))
                               worn_db.(index_data)))).
Proof.
  intros message.
  apply (ack_oversize_key_throws dedup_options message worn_db);
    try reflexivity. vm_compute. eauto.
Defined.

(** ** queue.ts: receive *)

Lemma receive_falsy_first (options : QueueOptions.t) (now : Z) (db : Tables) :
  falsy_key (Cursor.goToRange db.(queue_data) 0) = true →
  Queue.receive (Queue.new options) now db
  = (Ok None, mkState db (Transaction.close (writing db))).
Proof.
  intros Hfalsy. unfold Queue.receive.
  cbn [queue Queue.new]. rewrite writing_begin, cursor_writing.
  rewrite Hfalsy. reflexivity.
Qed.

Lemma falsy_first_key (s : gmap Z Message) :
  (∀ k, is_Some (s !! k) → k < 0) ∨ is_Some (s !! 0) →
  falsy_key (Cursor.goToRange s 0) = true.
Proof.
  intros Hcase.
  destruct (Cursor.goToRange s 0) as [k|] eqn:Hfirst; [|done].
  apply goToRange_Some in Hfirst as (Hk & Hle & Hmin). cbn [falsy_key].
  apply Z.eqb_eq. destruct Hcase as [Hneg|Hzero].
  - specialize (Hneg k Hk). lia.
  - specialize (Hmin 0 Hzero ltac:(lia)). lia.
Qed.

(** X15: when the message store has no key at or above zero, or has a
    record under key 0, [receive] returns null and aborts: nothing is
    changed, whatever else is stored and however the queue is configured. *)
Theorem receive_nothing_when_no_live_key_or_key_zero
    (options : QueueOptions.t) (now : Z) (db : Tables) :
  (∀ k, is_Some (db.(queue_data) !! k) → k < 0) ∨
  is_Some (db.(queue_data) !! 0) →
  Queue.receive (Queue.new options) now db
  = (Ok None, mkState db (Transaction.close (writing db))).
Proof. intros Hcase. by apply receive_falsy_first, falsy_first_key. Qed.

(** The store [worn_db] after the default queue has dead-lettered its two
    exhausted messages: the keys are -3 and -2. *)
Lemma worn_db_dead_lettered :
  map_to_list
    (queue_data (Queue.receive (Queue.new plain_options) 500000 worn_db).2.(env))
  = [ (-3, mkMessage (-3) 1002 7000 3 "c" None);
      (-2, mkMessage (-2) 1001 4000 3 "b" None) ].
Proof. vm_compute. reflexivity. Qed.

Lemma worn_db_dead_lettered_keys (k : Z) :
  is_Some (queue_data
             (Queue.receive (Queue.new plain_options) 500000 worn_db).2.(env)
           !! k) →
  k = -2 ∨ k = -3.
Proof.
  intros [m Hk]. apply elem_of_map_to_list in Hk.
  rewrite worn_db_dead_lettered in Hk.
  apply elem_of_cons in Hk as [[= -> _]|Hk]; [by right|].
  apply elem_of_cons in Hk as [[= -> _]|Hk]; [by left|].
  inversion Hk.
Qed.

Lemma receive_nothing_when_no_live_key_or_key_zero_witness :
  let db := (Queue.receive (Queue.new plain_options) 500000 worn_db).2.(env) in
  Queue.receive (Queue.new plain_options) 600000 db
  = (Ok None, mkState db (Transaction.close (writing db))).
Proof.
  intros db.
  apply (receive_nothing_when_no_live_key_or_key_zero plain_options 600000 db).
  left. intros k Hk.
  destruct (worn_db_dead_lettered_keys k Hk) as [-> | ->]; lia.
Defined.

(** X16: [send] takes the greatest key of the whole table, dead letters
    included.  When the store is not empty and holds dead letters only, the
    new message is stored under a key at or below zero; [receive] then
    returns null and changes nothing, so the message cannot be delivered. *)
Theorem send_after_only_dead_letters (options : QueueOptions.t)
    (body : string) (dedupKey : option string) (now : Z) (db : Tables)
    (top : Z) :
  is_Some (db.(queue_data) !! top) →
  (∀ k, is_Some (db.(queue_data) !! k) → k < 0) →
  (Queue.send (Queue.new options) body dedupKey now db).1 = Ok true →
  let after := (Queue.send (Queue.new options) body dedupKey now db).2.(env) in
  let new := fresh db.(queue_data) body dedupKey now in
  new.(id) ≤ 0 ∧
  queue_data after !! new.(id) = Some new ∧
  ∀ options' later,
    Queue.receive (Queue.new options') later after
    = (Ok None, mkState after (Transaction.close (writing after))).
Proof.
  intros Htop Hneg Hok after new.
  assert (new.(id) ≤ 0) as Hid.
  { subst new. cbn [fresh id]. unfold nextId.
    destruct (Cursor.goToLast db.(queue_data)) as [last|] eqn:Hlast.
    - apply goToLast_Some in Hlast as [Hin _].
      specialize (Hneg last Hin). cbn [key_or_zero]. lia.
    - apply goToLast_None in Hlast. rewrite Hlast, lookup_empty in Htop.
      by destruct Htop. }
  assert (queue_data after
          = <[new.(id) := new]> db.(queue_data)) as Hafter.
  { destruct (send_cases options body dedupKey now db)
      as [[e Hr]|[Hr|[_ Hr]]]; [by rewrite Hr in Hok..|]. exact Hr. }
  split; [done|]. split; [by rewrite Hafter, lookup_insert_eq|].
  intros options' later. apply receive_falsy_first.
  destruct (decide (new.(id) = 0)) as [Hzero|Hnonzero].
  - apply falsy_first_key. right. rewrite Hafter, <- Hzero, lookup_insert_eq.
    eauto.
  - apply falsy_first_key. left. intros k. rewrite Hafter.
    destruct (decide (k = new.(id))) as [->|Hne]; [lia|].
    rewrite lookup_insert_ne by done. apply Hneg.
Qed.

Lemma send_after_only_dead_letters_witness :
  let db := (Queue.receive (Queue.new plain_options) 500000 worn_db).2.(env) in
  let after := (Queue.send (Queue.new plain_options) "d" None 600000 db).2.(env) in
  let new := fresh db.(queue_data) "d" None 600000 in
  new.(id) ≤ 0 ∧
  queue_data after !! new.(id) = Some new ∧
  ∀ options' later,
    Queue.receive (Queue.new options') later after
    = (Ok None, mkState after (Transaction.close (writing after))).
Proof.
  intros db.
  apply (send_after_only_dead_letters plain_options "d" None 600000 db (-2)).
  - vm_compute. eauto.
  - intros k Hk. destruct (worn_db_dead_lettered_keys k Hk) as [-> | ->]; lia.
  - vm_compute. reflexivity.
Defined.

(** X17: with [requireAck] on, the message [receive] returns is never the
    first live one: its id lies strictly above the lowest key at or above
    zero.  A queue that holds a single live message never delivers it. *)
Theorem receive_never_returns_first_live (options : QueueOptions.t)
    (now : Z) (db : Tables) (returned : Message) :
  (Queue.new options).(config).(QueueConfig.requireAck) = true →
  stored_under_id db.(queue_data) →
  (Queue.receive (Queue.new options) now db).1 = Ok (Some returned) →
  ∃ first, Cursor.goToRange db.(queue_data) 0 = Some first ∧
           is_Some (db.(queue_data) !! first) ∧
           first < returned.(id).
Proof.
  intros Hack Hwf Hret.
  destruct (receive_with_ack options now db Hack Hwf)
    as [[_ Hr]|(key & message & exit & s' & Hfirst & Hkey & Hat & Hscan & Hr)];
    rewrite Hr in Hret; [done|].
  destruct exit as [|k m]; [done|]. injection Hret as <-.
  destruct Hscan as (Hwf' & _ & Hexit & _).
  destruct (Hexit k m eq_refl) as (Hk & _ & Hm').
  exists key. split; [done|]. split; [eauto|].
  cbn [deliver id]. by rewrite (Hwf' _ _ Hm' : m.(id) = k).
Qed.

Lemma receive_never_returns_first_live_witness :
  let db := (Queue.receive (Queue.new plain_options) 2000
               (Queue.send (Queue.new plain_options) "b" None 1001
                  (Queue.send (Queue.new plain_options) "a" None 1000
                     empty_db).2.(env)).2.(env)).2.(env) in
  ∃ first, Cursor.goToRange db.(queue_data) 0 = Some first ∧
           is_Some (db.(queue_data) !! first) ∧
           first < (mkMessage 2 1001 400000 2 "b" None).(id).
Proof.
  intros db.
  apply (receive_never_returns_first_live plain_options 400000 db).
  - reflexivity.
  - apply reachable_stored_under_id. subst db.
    apply reachable_receive. do 2 apply reachable_send.
    apply reachable_empty.
  - vm_compute. reflexivity.
Defined.

(** X18: with [requireAck] on, the message [receive] returns is the stored
    record with [numReceives] one higher and [received] set to the time of
    the call, all else equal; it is written back under the same id, the
    dedup index is not touched, and the transaction is committed. *)
Theorem receive_returns_what_it_stores (options : QueueOptions.t)
    (now : Z) (db : Tables) (returned : Message) :
  (Queue.new options).(config).(QueueConfig.requireAck) = true →
  stored_under_id db.(queue_data) →
  (Queue.receive (Queue.new options) now db).1 = Ok (Some returned) →
  let after := (Queue.receive (Queue.new options) now db).2 in
  ∃ m, db.(queue_data) !! returned.(id) = Some m ∧
       returned = mkMessage m.(id) m.(enqueued) now (m.(numReceives) + 1)
                            m.(body) m.(dedupKey) ∧
       queue_data after.(env) !! returned.(id) = Some returned ∧
       index_data after.(env) = db.(index_data) ∧
       after.(own) = Transaction.close (writing after.(env)).
Proof.
  intros Hack Hwf Hret after. subst after.
  destruct (receive_with_ack options now db Hack Hwf)
    as [[_ Hr]|(key & message & exit & s' & Hfirst & Hkey & Hat & Hscan & Hr)];
    rewrite Hr in *; [done|].
  destruct exit as [|k m]; [done|]. injection Hret as <-.
  destruct Hscan as (Hwf' & _ & Hexit & _).
  destruct (Hexit k m eq_refl) as (Hk & Hm & Hm').
  pose proof (Hwf' _ _ Hm' : m.(id) = k) as Hid.
  exists m. cbn [deliver id snd env own queue_data index_data].
  rewrite Hid. split; [done|]. split; [by rewrite <- Hid|].
  split; [apply lookup_insert_eq|]. done.
Qed.

Lemma receive_returns_what_it_stores_witness :
  let db := (Queue.send (Queue.new plain_options) "b" None 1001
               (Queue.send (Queue.new plain_options) "a" None 1000
                  empty_db).2.(env)).2.(env) in
  let returned := mkMessage 2 1001 2000 1 "b" None in
  let after := (Queue.receive (Queue.new plain_options) 2000 db).2 in
  ∃ m, db.(queue_data) !! returned.(id) = Some m ∧
       returned = mkMessage m.(id) m.(enqueued) 2000 (m.(numReceives) + 1)
                            m.(body) m.(dedupKey) ∧
       queue_data after.(env) !! returned.(id) = Some returned ∧
       index_data after.(env) = db.(index_data) ∧
       after.(own) = Transaction.close (writing after.(env)).
Proof.
  intros db returned.
  apply (receive_returns_what_it_stores plain_options 2000 db returned).
  - reflexivity.
  - apply reachable_stored_under_id. subst db.
    do 2 apply reachable_send. apply reachable_empty.
  - vm_compute. reflexivity.
Defined.



(** X20: with [requireAck] off, [receive] takes the first live record
    whatever its lease state: it returns it with the delivery counted,
    deletes it from the message store and, with dedup on, deletes its dedup
    key from the index; no record is written under a negative key. *)
Theorem receive_auto_ack_takes_first (options : QueueOptions.t) (now : Z)
    (db : Tables) (first : Z) (m : Message) :
  let this := Queue.new options in
  let key := or_else m.(dedupKey) m.(body) in
  this.(config).(QueueConfig.requireAck) = false →
  Cursor.goToRange db.(queue_data) 0 = Some first →
  first ≠ 0 →
  db.(queue_data) !! first = Some m →
  m.(id) = first →
  (this.(index) = None ∨
   key_fits key = true ∧ is_Some (db.(index_data) !! key)) →
  Queue.receive this now db
  = let t := mkTables (delete first db.(queue_data))
                      (match this.(index) with
                       | Some _ => delete key db.(index_data)
                       | None => db.(index_data)
                       end) in
    (Ok (Some (deliver m now)), mkState t (Transaction.close (writing t))).
Proof.
  intros this key Hack Hfirst Hnz Hm Hid Hindex. subst this key.
  destruct db as [s ix]. cbn [queue_data index_data] in *.
  unfold Queue.receive.
  cbn [queue Queue.new]. rewrite writing_begin, cursor_writing.
  cbn [queue_data]. rewrite Hfirst. cbn [falsy_key key_or_zero].
  rewrite (proj2 (Z.eqb_neq first 0)) by done.
  unfold Cursor.getCurrentString. rewrite Hm.
  change (config {| config := assign defaultConfig options;
                    queue := queue_table;
                    index := if default false (QueueOptions.dedup options)
                             then Some index_table else None |})
    with (config (Queue.new options)).
  rewrite Hack. cbn [negb index Queue.new] in *.
  destruct (default false options.(QueueOptions.dedup)).
  - destruct Hindex as [|[Hfit _]]; [done|].
    unfold bind, ret. rewrite del_index by done.
    rewrite del_queue, commit_writing. cbn [queue_data index_data].
    by rewrite Hid.
  - unfold bind, ret. rewrite del_queue, commit_writing.
    cbn [queue_data index_data]. by rewrite Hid.
Qed.

Lemma receive_auto_ack_takes_first_witness :
  let this := Queue.new auto_ack_options in
  let m := mkMessage 2 1001 4000 3 "b" None in
  Queue.receive this 4001 worn_db
  = let t := mkTables (delete 2 worn_db.(queue_data))
                      (match this.(index) with
                       | Some _ => delete (or_else m.(dedupKey) m.(body))
                                          worn_db.(index_data)
                       | None => worn_db.(index_data)
                       end) in
    (Ok (Some (deliver m 4001)), mkState t (Transaction.close (writing t))).
Proof.
  intros this m.
  apply (receive_auto_ack_takes_first auto_ack_options 4001 worn_db 2 m).
  - reflexivity.
  - vm_compute. reflexivity.
  - lia.
  - vm_compute. reflexivity.
  - reflexivity.
  - left. reflexivity.
Defined.

(** X21: every store the queue operations can reach from the empty store
    keeps each record under the key its [id] field names: positive ids
    under positive keys, dead letters under the negated key. *)
Theorem reachable_records_sit_under_their_id (db : Tables) (k : Z)
    (m : Message) :
  reachable db →
  db.(queue_data) !! k = Some m →
  m.(id) = k.
Proof.
  intros Hreach Hm. exact (reachable_stored_under_id db Hreach k m Hm).
Qed.

Lemma reachable_records_sit_under_their_id_witness :
  (mkMessage (-3) 1002 7000 3 "c" None).(id) = -3.
Proof.
  apply (reachable_records_sit_under_their_id
           (Queue.receive (Queue.new plain_options) 500000 worn_db).2.(env)).
  - apply reachable_receive, worn_db_reachable.
  - vm_compute. reflexivity.
Defined.
